(** * visualize_layout.py: statistics and rendering of a graph layout

    A shallow embedding of the script [visualize_layout.py].  The script
    is a straight-line program over a parsed JSON document: it prints a
    sequence of metric lines, builds three matplotlib panels and saves one
    PNG file.  Its effects (console output, exceptions, the written file)
    are modelled by a state-and-error monad; coordinates are IEEE binary64
    numbers (Rocq's primitive floats, which is what [numpy.float64] is);
    node indices and degrees are integers. *)

From Stdlib Require Import ZArith List String Ascii Bool Lia Arith.
From Stdlib Require Import Permutation DecimalString Floats.
Import ListNotations.

Set Warnings "-inexact-float".

Open Scope Z_scope.

(** ** The Python runtime pieces the script relies on *)

(** *** [hash(str)]: CPython's keyed string hash

    [hash(str(i))] is CPython's [_Py_HashBytes] over the ASCII bytes of
    the decimal numeral: SipHash-1-3 (CPython 3.11 and later) keyed by the
    interpreter's per-process secret [_Py_HashSecret.siphash.{k0,k1}].
    The secret is drawn at interpreter start, from the OS random source
    unless the environment fixes [PYTHONHASHSEED]; it is a parameter of
    every run. *)
Module PyHash.

Record HashSecret := { k0 : Z; k1 : Z }.

Definition u64 (x : Z) : Z := Z.land x (Z.ones 64).

Definition rotl (x b : Z) : Z :=
  u64 (Z.lor (Z.shiftl x b) (Z.shiftr x (64 - b))).

Record sipstate := { v0 : Z; v1 : Z; v2 : Z; v3 : Z }.

(** [HALF_ROUND(a,b,c,d,s,t)] *)
Definition half_round (a b c d s t : Z) : Z * Z * Z * Z :=
  let a := u64 (a + b) in
  let c := u64 (c + d) in
  let b := Z.lxor (rotl b s) a in
  let d := Z.lxor (rotl d t) c in
  let a := rotl a 32 in
  (a, b, c, d).

(** [SINGLE_ROUND(v0,v1,v2,v3)]: [HALF_ROUND(v0,v1,v2,v3,13,16)] then
    [HALF_ROUND(v2,v1,v0,v3,17,21)]. *)
Definition single_round (st : sipstate) : sipstate :=
  let '(a0, b1, c2, d3) := half_round (v0 st) (v1 st) (v2 st) (v3 st) 13 16 in
  let '(a2, b1', c0, d3') := half_round c2 b1 a0 d3 17 21 in
  {| v0 := c0; v1 := b1'; v2 := a2; v3 := d3' |}.

(** Little-endian word of at most eight bytes. *)
Fixpoint le64 (bs : list Z) : Z :=
  match bs with
  | [] => 0
  | b :: bs' => Z.lor b (Z.shiftl (le64 bs') 8)
  end.

Definition absorb (st : sipstate) (m : Z) : sipstate :=
  let st := {| v0 := v0 st; v1 := v1 st; v2 := v2 st; v3 := Z.lxor (v3 st) m |} in
  let st := single_round st in
  {| v0 := Z.lxor (v0 st) m; v1 := v1 st; v2 := v2 st; v3 := v3 st |}.

(** The [while (src_sz >= 8)] loop; returns the state and the tail of
    fewer than eight bytes. *)
Fixpoint blocks (st : sipstate) (bs : list Z) : sipstate * list Z :=
  match bs with
  | b0 :: b1 :: b2 :: b3 :: b4 :: b5 :: b6 :: b7 :: rest =>
      blocks (absorb st (le64 [b0; b1; b2; b3; b4; b5; b6; b7])) rest
  | tl => (st, tl)
  end.

Definition siphash13 (key0 key1 : Z) (src : list Z) : Z :=
  let b := u64 (Z.shiftl (Z.of_nat (List.length src)) 56) in
  let st := {| v0 := Z.lxor key0 0x736f6d6570736575;
               v1 := Z.lxor key1 0x646f72616e646f6d;
               v2 := Z.lxor key0 0x6c7967656e657261;
               v3 := Z.lxor key1 0x7465646279746573 |} in
  let '(st, tl) := blocks st src in
  let b := Z.lor b (le64 tl) in
  let st := absorb st b in
  let st := {| v0 := v0 st; v1 := v1 st; v2 := Z.lxor (v2 st) 0xff; v3 := v3 st |} in
  let st := single_round (single_round (single_round st)) in
  Z.lxor (Z.lxor (v0 st) (v1 st)) (Z.lxor (v2 st) (v3 st)).

(** [Py_hash_t] is a signed 64-bit integer. *)
Definition to_signed (x : Z) : Z := if x <? 2 ^ 63 then x else x - 2 ^ 64.

(** [_Py_HashBytes]: the empty string hashes to 0, and -1 is reserved. *)
Definition hash_bytes (s : HashSecret) (src : list Z) : Z :=
  match src with
  | [] => 0
  | _ => let x := to_signed (siphash13 (k0 s) (k1 s) src) in
         if x =? -1 then -2 else x
  end.

Definition bytes_of_string (t : string) : list Z :=
  map (fun c => Z.of_nat (nat_of_ascii c)) (list_ascii_of_string t).

(** [str(i)] for a non-negative [int]. *)
Definition str (i : nat) : string := NilZero.string_of_uint (Nat.to_uint i).

(** [hash(t)] for an ASCII [str]. *)
Definition hash (s : HashSecret) (t : string) : Z :=
  hash_bytes s (bytes_of_string t).

End PyHash.
Export PyHash.

(** *** Floats: conversions, [round(x, 1)] and [max] *)

(** [int] (or [int64]) to [float64], rounding to nearest even. *)
Definition float_of_Z (z : Z) : float :=
  SF2Prim (binary_normalize prec emax z 0 false).

(** The integer nearest to [m * 2^e], ties to even. *)
Definition round_half_even_scaled (m e : Z) : Z :=
  if 0 <=? e then m * 2 ^ e
  else
    let d := 2 ^ (- e) in
    let q := m / d in
    let r := m mod d in
    match 2 * r ?= d with
    | Lt => q
    | Gt => q + 1
    | Eq => if Z.even q then q else q + 1
    end.

(** [round(x, 1)] on a Python [float]: CPython prints the exact value of
    [x] correctly rounded (ties to even) to one digit after the point and
    reads the numeral back as the nearest double; NaN and the infinities
    round to themselves and the sign of a zero result is kept. *)
Definition py_round1 (x : float) : float :=
  match Prim2SF x with
  | S754_finite s m e =>
      match round_half_even_scaled (10 * Z.pos m) e with
      | Z.pos k => SF2Prim (SFdiv prec emax (S754_finite s k 0) (S754_finite false 10 0))
      | _ => SF2Prim (S754_zero s)
      end
  | _ => x
  end.

(** The builtin [max(a, b)]: the first argument is kept unless the second
    compares greater. *)
Definition py_max (a b : float) : float := if (a <? b)%float then b else a.

(** ** Data model: the parsed [data.json] *)

(** One element of [data["nodes"]]: the keys ["x"], ["y"], ["label"]. *)
Record Node := { node_x : float; node_y : float; node_label : string }.

(** One element of [data["edges"]], unpacked as [src, tgt, ty]. *)
Record Edge := { e_src : Z; e_tgt : Z; e_ty : Z }.

Record Dataset := { ds_nodes : list Node; ds_edges : list Edge }.

(** ** Exceptions *)

Inductive Reduction := Minimum | Maximum.

Inductive Exn :=
| ZeroSizeReduction (op : Reduction)
    (** ValueError: zero-size array to reduction operation [op] which has
        no identity *)
| IndexError (index : Z) (size : nat)
    (** IndexError: index [index] is out of bounds for axis 0 with size
        [size] *)
| AxisLimitsNotFinite
    (** ValueError: Axis limits cannot be NaN or Inf *)
| OverflowError
    (** OverflowError: Python int too large to convert to C long *)
| IndexErrorNotInteger
    (** IndexError: arrays used as indices must be of integer (or
        boolean) type *)
| LayoutError
    (** the exception matplotlib raises while it lays the figure out in
        [plt.tight_layout()], such as the ValueError for a label that is
        not valid mathtext *)
| SaveError
    (** the exception [plt.savefig(...)] raises when the figure cannot be
        drawn or the file cannot be written *).

Definition Res (A : Type) : Type := (Exn + A)%type.

Definition res_bind {A B} (r : Res A) (f : A -> Res B) : Res B :=
  match r with
  | inl e => inl e
  | inr a => f a
  end.

Declare Scope res_scope.
Delimit Scope res_scope with res.
Notation "x <- c1 ;; c2" := (res_bind c1 (fun x => c2))
  (at level 61, c1 at next level, right associativity) : res_scope.

(** [mapM f l]: a [for] loop collecting one value per element, stopped by
    the first exception. *)
Fixpoint mapM {A B} (f : A -> Res B) (l : list A) : Res (list B) :=
  match l with
  | [] => inr []
  | a :: l' =>
      (b <- f a ;;
       bs <- mapM f l' ;;
       inr (b :: bs))%res
  end.

(** ** NumPy arrays *)

(** The exception for a Python [int] subscript [i] that does not address
    an element of an array of [n] elements.  One that fits a C long is
    checked against the bounds and reported with the index and the size.
    One that does not is first turned into an array: a value below 2^64
    becomes an unsigned 64-bit scalar, whose conversion to an index
    overflows; any other becomes an object array, which is no index. *)
Definition subscript_error (n : nat) (i : Z) : Exn :=
  if (- 2 ^ 63 <=? i) && (i <? 2 ^ 63) then IndexError i n
  else if (2 ^ 63 <=? i) && (i <? 2 ^ 64) then OverflowError
  else IndexErrorNotInteger.

(** Position addressed by the subscript [i] in an array of [n] elements:
    indices [0 .. n-1] address from the front, [-n .. -1] from the back,
    anything else raises. *)
Definition normalize_index (n : nat) (i : Z) : Res nat :=
  if (0 <=? i) && (i <? Z.of_nat n) then inr (Z.to_nat i)
  else if (- Z.of_nat n <=? i) && (i <? 0) then inr (Z.to_nat (i + Z.of_nat n))
  else inl (subscript_error n i).

(** [a[i]] *)
Definition getitem {A} (d : A) (a : list A) (i : Z) : Res A :=
  (p <- normalize_index (List.length a) i ;; inr (nth p a d))%res.

(** Replace position [p]. *)
Fixpoint set_nth {A} (p : nat) (v : A) (a : list A) : list A :=
  match a, p with
  | [], _ => []
  | _ :: a', O => v :: a'
  | h :: a', S p' => h :: set_nth p' v a'
  end.

(** [a[i] += 1] on an integer array.  The array is [int64]; a count of
    list elements cannot reach 2^63, so the wrap-around is not written. *)
Definition incr_item (a : list Z) (i : Z) : Res (list Z) :=
  (p <- normalize_index (List.length a) i ;; inr (set_nth p (nth p a 0 + 1) a))%res.

(** [a[i]] for a loop index known to be in range. *)
Definition item (a : list float) (i : nat) : float := nth i a nan.

(** ** The figure

    The arguments the plotting calls are given, as data. *)

Definition Point : Type := (float * float)%type.
Definition Segment : Type := (Point * Point)%type.
Definition RGBA : Type := (float * float * float * float)%type.

(** What the plotting calls are given.  The drawing itself is done by
    matplotlib; the model records the arguments of each call. *)
Inductive Coloring :=
| HsvHues (hues : list Z) (alpha : float)  (** [plt.cm.hsv(hues / 360)], alpha set to 0.8 *)
| Plasma (values : list Z).                (** [c=degrees, cmap="plasma"] *)

Record Scatter := {
  sc_x : list float; sc_y : list float; sc_s : list float; sc_c : Coloring }.

Record Annotation := {
  an_text : string; an_xy : Point; an_fontsize : Z; an_xytext : Z * Z }.

Inductive Title :=
| FullLayout (n_nodes n_edges : nat)   (** "Full Layout (N nodes, E edges)" *)
| CoreZoom                             (** "Core (2-sigma zoom)" *)
| DegreeHeatmap.                       (** "Degree heatmap" *)

Record Panel := {
  p_title : Title;
  p_xlim : option (float * float);     (** [set_xlim], when called *)
  p_ylim : option (float * float);
  p_lines : list Segment;              (** the [LineCollection] *)
  p_colors : list RGBA;
  p_linewidth : float;
  p_scatter : Scatter;
  p_labels : list Annotation }.

(** [plt.subplots(1, 3, figsize=(30, 10))] saved with [dpi=150]. *)
Record Image := {
  width_px : Z; height_px : Z;
  panel1 : Panel; panel2 : Panel; panel3 : Panel }.

(** The figure without its node hues.  Panels 1 and 2 colour the nodes
    by [hash(str(i)) % 360]; the hues reach the pixels and nothing else
    of the drawing. *)
Definition plain (c : Coloring) : Coloring :=
  match c with
  | HsvHues _ alpha => HsvHues [] alpha
  | Plasma values => Plasma values
  end.

Definition plain_panel (p : Panel) : Panel :=
  {| p_title := p_title p; p_xlim := p_xlim p; p_ylim := p_ylim p;
     p_lines := p_lines p; p_colors := p_colors p; p_linewidth := p_linewidth p;
     p_scatter := {| sc_x := sc_x (p_scatter p); sc_y := sc_y (p_scatter p);
                     sc_s := sc_s (p_scatter p); sc_c := plain (sc_c (p_scatter p)) |};
     p_labels := p_labels p |}.

Definition geometry (img : Image) : Image :=
  {| width_px := width_px img; height_px := height_px img;
     panel1 := plain_panel (panel1 img); panel2 := plain_panel (panel2 img);
     panel3 := plain_panel (panel3 img) |}.

(** What the run takes from outside the script: the array reductions
    whose arithmetic lives inside NumPy (each field is the value on a
    non-empty array), whether matplotlib lays out the figure it was given
    (a label with an unbalanced TeX formula, for one, makes it raise) and
    whether it then draws and writes the file.  They are parameters of
    the model; the last two see the figure without its hues. *)
Record Kernels := {
  amin : list float -> float;      (** [ndarray.min] *)
  amax : list float -> float;      (** [ndarray.max] *)
  mean : list float -> float;      (** [ndarray.mean] *)
  std : list float -> float;       (** [ndarray.std] *)
  median : list float -> float;    (** [numpy.median] *)
  argsort : list Z -> list nat;    (** [numpy.argsort] *)
  lays_out : Image -> bool;        (** [plt.tight_layout()] returns *)
  can_write : Image -> bool        (** [plt.savefig(...)] returns *)
}.

Section NumPy.
Variable K : Kernels.

(** [a.min()] and [a.max()] raise on an empty array. *)
Definition np_min (a : list float) : Res float :=
  match a with
  | [] => inl (ZeroSizeReduction Minimum)
  | _ => inr (amin K a)
  end.

Definition np_max (a : list float) : Res float :=
  match a with
  | [] => inl (ZeroSizeReduction Maximum)
  | _ => inr (amax K a)
  end.

(** [a.mean()], [a.std()], [np.median(a)]: NaN (with a warning) on an
    empty array. *)
Definition np_mean (a : list float) : float :=
  match a with [] => nan | _ => mean K a end.

Definition np_std (a : list float) : float :=
  match a with [] => nan | _ => std K a end.

Definition np_median (a : list float) : float :=
  match a with [] => nan | _ => median K a end.

End NumPy.

(** [a.max()] on an integer array. *)
Definition int_max (a : list Z) : Res Z :=
  match a with
  | [] => inl (ZeroSizeReduction Maximum)
  | h :: t => inr (fold_left Z.max t h)
  end.

(** [np.sum(a == v)] *)
Definition count_eq (v : Z) (a : list Z) : nat :=
  List.length (filter (Z.eqb v) a).

(** ** Statistics (lines 31-67 of the script) *)

(** The degree loop: [degrees[src] += 1; degrees[tgt] += 1] per edge. *)
Fixpoint degree_loop (edges : list Edge) (degrees : list Z) : Res (list Z) :=
  match edges with
  | [] => inr degrees
  | e :: edges' =>
      (d1 <- incr_item degrees (e_src e) ;;
       d2 <- incr_item d1 (e_tgt e) ;;
       degree_loop edges' d2)%res
  end.

(** [degrees = np.zeros(len(nodes), dtype=int)], then the loop. *)
Definition compute_degrees (n : nat) (edges : list Edge) : Res (list Z) :=
  degree_loop edges (repeat 0 n).

(** Keys of the [Counter]: pairs of rounded coordinates.  Two keys are the
    same dictionary key when both components compare equal as floats
    (every key is a freshly built tuple of fresh floats, so the identity
    shortcut of the comparison never applies: a NaN equals nothing). *)
Definition Key : Type := (float * float)%type.

Definition key_eqb (a b : Key) : bool :=
  ((fst a =? fst b) && (snd a =? snd b))%float.

(** [c[k] = c.get(k, 0) + 1] on an insertion-ordered dictionary. *)
Fixpoint counter_incr (k : Key) (c : list (Key * nat)) : list (Key * nat) :=
  match c with
  | [] => [(k, 1%nat)]
  | (k', n) :: c' =>
      if key_eqb k' k then (k', S n) :: c' else (k', n) :: counter_incr k c'
  end.

(** [Counter(iterable)] *)
Definition Counter (keys : list Key) : list (Key * nat) :=
  fold_left (fun c k => counter_incr k c) keys [].

(** [(round(float(x), 1), round(float(y), 1)) for x, y in zip(xs, ys)] *)
Definition rounded_keys (xs ys : list float) : list Key :=
  map (fun p => (py_round1 (fst p), py_round1 (snd p))) (combine xs ys).

(** [sum(1 for c in rounded.values() if c > 1)] *)
Definition overlaps_of (keys : list Key) : nat :=
  List.length (filter (fun kc => (1 <? snd kc)%nat) (Counter keys)).

Definition overlaps (xs ys : list float) : nat :=
  overlaps_of (rounded_keys xs ys).

(** [np.sqrt((xs[i]-xs[j])**2 + (ys[i]-ys[j])**2)]; the square is the
    product of the difference with itself. *)
Definition euclid (x1 y1 x2 y2 : float) : float :=
  sqrt ((x1 - x2) * (x1 - x2) + (y1 - y2) * (y1 - y2))%float.

Definition node_dist (xs ys : list float) (i j : nat) : float :=
  euclid (item xs i) (item ys i) (item xs j) (item ys j).

(** The double loop [for i in range(m): for j in range(i+1, m)] with
    [m = min(500, len(nodes))]. *)
Definition pair_dists (xs ys : list float) (n : nat) : list float :=
  let m := Nat.min 500 n in
  flat_map (fun i => map (fun j => node_dist xs ys i j) (seq (S i) (m - S i)))
           (seq 0 m).

(** [d = np.sqrt((xs[src]-xs[tgt])**2 + (ys[src]-ys[tgt])**2)]; the
    subscripts are evaluated left to right. *)
Definition edge_len (xs ys : list float) (e : Edge) : Res float :=
  (xs_src <- getitem nan xs (e_src e) ;;
   xs_tgt <- getitem nan xs (e_tgt e) ;;
   ys_src <- getitem nan ys (e_src e) ;;
   ys_tgt <- getitem nan ys (e_tgt e) ;;
   inr (euclid xs_src ys_src xs_tgt ys_tgt))%res.

Definition edge_lens (xs ys : list float) (edges : list Edge) : Res (list float) :=
  mapM (edge_len xs ys) edges.

(** ** Rendering (lines 69-145) *)

(** [edge_colors_map.get(ty, (0.5, 0.5, 0.5, 0.1))] *)
Definition edge_color (ty : Z) : RGBA :=
  if ty =? 0 then (0.8, 0.2, 0.2, 0.12)%float
  else if ty =? 1 then (0.2, 0.8, 0.2, 0.12)%float
  else if ty =? 2 then (0.3, 0.3, 0.9, 0.12)%float
  else (0.5, 0.5, 0.5, 0.1)%float.

(** [[(xs[src], ys[src]), (xs[tgt], ys[tgt])]] *)
Definition segment (xs ys : list float) (e : Edge) : Res Segment :=
  (xs_src <- getitem nan xs (e_src e) ;;
   ys_src <- getitem nan ys (e_src e) ;;
   xs_tgt <- getitem nan xs (e_tgt e) ;;
   ys_tgt <- getitem nan ys (e_tgt e) ;;
   inr ((xs_src, ys_src), (xs_tgt, ys_tgt)))%res.

(** [sizes = 2 + (degrees / max_degree) * 30]: true division of integer
    arrays yields floats, and 0/0 is NaN, not an exception. *)
Definition sizes_of (degrees : list Z) (max_degree : Z) : list float :=
  map (fun d => 2 + (float_of_Z d / float_of_Z max_degree) * 30)%float degrees.

(** [hash(str(i)) % 360] *)
Definition hue (secret : HashSecret) (i : nat) : Z := hash secret (str i) mod 360.

Definition hues_of (secret : HashSecret) (n : nat) : list Z :=
  map (hue secret) (seq 0 n).

(** [abs(x - cx) < radius and abs(y - cy) < radius] *)
Definition in_window (cx cy radius x y : float) : bool :=
  ((abs (x - cx) <? radius) && (abs (y - cy) <? radius))%float.

(** The condition of the Panel 2 loop; [and] stops at the first false
    conjunct, so later subscripts are evaluated only when needed. *)
Definition edge_in_view (xs ys : list float) (cx cy radius : float) (e : Edge) : Res bool :=
  (xs_src <- getitem nan xs (e_src e) ;;
   if negb (abs (xs_src - cx) <? radius)%float then inr false else
   ys_src <- getitem nan ys (e_src e) ;;
   if negb (abs (ys_src - cy) <? radius)%float then inr false else
   xs_tgt <- getitem nan xs (e_tgt e) ;;
   if negb (abs (xs_tgt - cx) <? radius)%float then inr false else
   ys_tgt <- getitem nan ys (e_tgt e) ;;
   inr (abs (ys_tgt - cy) <? radius)%float)%res.

(** The Panel 2 loop: the edges that pass the test, in order. *)
Fixpoint edges_in_view (xs ys : list float) (cx cy radius : float)
    (edges : list Edge) : Res (list Edge) :=
  match edges with
  | [] => inr []
  | e :: edges' =>
      (b <- edge_in_view xs ys cx cy radius e ;;
       rest <- edges_in_view xs ys cx cy radius edges' ;;
       inr (if b then e :: rest else rest))%res
  end.

(** [a[mask]] *)
Fixpoint select {A} (mask : list bool) (a : list A) : list A :=
  match mask, a with
  | b :: mask', v :: a' => if b then v :: select mask' a' else select mask' a'
  | _, _ => []
  end.

(** [ax.set_xlim(lo, hi)]: matplotlib refuses a limit that is NaN or
    infinite. *)
Definition set_lim (lo hi : float) : Res (float * float) :=
  if is_finite lo && is_finite hi then inr (lo, hi) else inl AxisLimitsNotFinite.

(** [ax.annotate(nodes[i]["label"], (xs[i], ys[i]), fontsize=.., xytext=(0, ..))];
    [i] comes out of [argsort], a position of the array. *)
Definition annotate (nodes : list Node) (fontsize dy : Z) (i : nat) : Annotation :=
  let n := nth i nodes {| node_x := nan; node_y := nan; node_label := EmptyString |} in
  {| an_text := node_label n; an_xy := (node_x n, node_y n);
     an_fontsize := fontsize; an_xytext := (0, dy) |}.

(** The labelling loop of Panel 2: [if mask[i] and labeled < 30]. *)
Fixpoint label_core (nodes : list Node) (mask : list bool) (order : list nat)
    (labeled : nat) : list Annotation :=
  match order with
  | [] => []
  | i :: order' =>
      if nth i mask false && (labeled <? 30)%nat
      then annotate nodes 5 3 i :: label_core nodes mask order' (S labeled)
      else label_core nodes mask order' labeled
  end.

(** ** The run: console, file system, exceptions *)

(** The printed lines, with the values before formatting. *)
Inductive Line :=
| LNodes (n : nat)
| LEdges (n : nat)
| LXRange (lo hi : float)
| LYRange (lo hi : float)
| LStd (sx sy : float)
| LAnyNaN (b : bool)
| LAnyInf (b : bool)
| LMaxDegree (d : Z)
| LIsolated (deg0 deg1 : nat)
| LOverlaps (n : nat)
| LPairwise (dmin dmedian dmean : float)
| LEdgeLengths (lmin lmedian lmean lmax : float)
| LSaved.

(** The observable state: what was printed so far, and the image in
    [layout_visualization.png] if a [savefig] call of the script
    completed.  What a failing [savefig] leaves on disk is not an image
    and is not recorded. *)
Record World := { stdout : list Line; png : option Image }.

Definition M (A : Type) : Type := World -> World * Res A.

Definition ret {A} (a : A) : M A := fun w => (w, inr a).

Definition bind {A B} (m : M A) (f : A -> M B) : M B :=
  fun w => match m w with
           | (w', inl e) => (w', inl e)
           | (w', inr a) => f a w'
           end.

(** A statement that may raise. *)
Definition lift {A} (r : Res A) : M A := fun w => (w, r).

Definition print (l : Line) : M unit :=
  fun w => ({| stdout := stdout w ++ [l]; png := png w |}, inr tt).

(** [plt.tight_layout()]: the texts and artists stored by the calls
    before are measured here for the first time. *)
Definition tight_layout (K : Kernels) (img : Image) : Res unit :=
  if lays_out K (geometry img) then inr tt else inl LayoutError.

(** [plt.savefig("layout_visualization.png", ...)] *)
Definition savefig (K : Kernels) (img : Image) : M unit :=
  fun w => if can_write K (geometry img)
           then ({| stdout := stdout w; png := Some img |}, inr tt)
           else (w, inl SaveError).

Declare Scope py_scope.
Delimit Scope py_scope with py.
Notation "x <- c1 ;; c2" := (bind c1 (fun x => c2))
  (at level 61, c1 at next level, right associativity) : py_scope.
Notation "c1 ;; c2" := (bind c1 (fun _ => c2))
  (at level 61, right associativity) : py_scope.

Section Script.
Variable K : Kernels.
Variable secret : HashSecret.

(** Lines 17-67: the statistics report.  Returns [degrees] and
    [max_degree], which the rendering uses. *)
Definition report (data : Dataset) : M (list Z * Z) :=
  (let nodes := ds_nodes data in
   let edges := ds_edges data in
   let xs := map node_x nodes in
   let ys := map node_y nodes in
   print (LNodes (List.length nodes)) ;;
   print (LEdges (List.length edges)) ;;
   x_lo <- lift (np_min K xs) ;;
   x_hi <- lift (np_max K xs) ;;
   print (LXRange x_lo x_hi) ;;
   y_lo <- lift (np_min K ys) ;;
   y_hi <- lift (np_max K ys) ;;
   print (LYRange y_lo y_hi) ;;
   print (LStd (np_std K xs) (np_std K ys)) ;;
   print (LAnyNaN (existsb is_nan xs || existsb is_nan ys)) ;;
   print (LAnyInf (existsb is_infinity xs || existsb is_infinity ys)) ;;
   degrees <- lift (compute_degrees (List.length nodes) edges) ;;
   max_degree <- lift (int_max degrees) ;;
   print (LMaxDegree max_degree) ;;
   print (LIsolated (count_eq 0 degrees) (count_eq 1 degrees)) ;;
   print (LOverlaps (overlaps xs ys)) ;;
   let dists := pair_dists xs ys (List.length nodes) in
   d_min <- lift (np_min K dists) ;;
   print (LPairwise d_min (np_median K dists) (np_mean K dists)) ;;
   lens <- lift (edge_lens xs ys edges) ;;
   l_min <- lift (np_min K lens) ;;
   l_max <- lift (np_max K lens) ;;
   print (LEdgeLengths l_min (np_median K lens) (np_mean K lens) l_max) ;;
   ret (degrees, max_degree))%py.

(** Lines 69-142: the three panels. *)
Definition render (data : Dataset) (degrees : list Z) (max_degree : Z) : Res Image :=
  (let nodes := ds_nodes data in
   let edges := ds_edges data in
   let xs := map node_x nodes in
   let ys := map node_y nodes in
   (* Left: full graph with edges *)
   lines <- mapM (segment xs ys) edges ;;
   let colors := map (fun e => edge_color (e_ty e)) edges in
   let sizes := sizes_of degrees max_degree in
   let hues := hues_of secret (List.length nodes) in
   let ax :=
     {| p_title := FullLayout (List.length nodes) (List.length edges);
        p_xlim := None; p_ylim := None;
        p_lines := lines; p_colors := colors; p_linewidth := 0.3%float;
        p_scatter := {| sc_x := xs; sc_y := ys; sc_s := sizes;
                        sc_c := HsvHues hues 0.8%float |};
        p_labels := [] |} in
   (* Middle: zoomed to core (within 2 std devs) *)
   let cx := np_mean K xs in
   let cy := np_mean K ys in
   let radius := (2 * py_max (np_std K xs) (np_std K ys))%float in
   xlim <- set_lim (cx - radius)%float (cx + radius)%float ;;
   ylim <- set_lim (cy - radius)%float (cy + radius)%float ;;
   shown <- edges_in_view xs ys cx cy radius edges ;;
   lines2 <- mapM (segment xs ys) shown ;;
   let colors2 := map (fun e => edge_color (e_ty e)) shown in
   let mask := map (fun p => in_window cx cy radius (fst p) (snd p)) (combine xs ys) in
   let sorted_by_degree := rev (argsort K degrees) in
   let ax2 :=
     {| p_title := CoreZoom;
        p_xlim := Some xlim; p_ylim := Some ylim;
        p_lines := lines2; p_colors := colors2; p_linewidth := 0.4%float;
        p_scatter := {| sc_x := select mask xs; sc_y := select mask ys;
                        sc_s := select mask sizes;
                        sc_c := HsvHues (select mask hues) 0.8%float |};
        p_labels := label_core nodes mask sorted_by_degree 0 |} in
   (* Right: degree-colored *)
   let ax3 :=
     {| p_title := DegreeHeatmap;
        p_xlim := None; p_ylim := None;
        p_lines := []; p_colors := []; p_linewidth := 0%float;
        p_scatter := {| sc_x := xs; sc_y := ys; sc_s := sizes;
                        sc_c := Plasma degrees |};
        p_labels := map (annotate nodes 6 4) (firstn 15 sorted_by_degree) |} in
   inr {| width_px := 30 * 150; height_px := 10 * 150;
          panel1 := ax; panel2 := ax2; panel3 := ax3 |})%res.

(** The whole script.  [plt.close()] touches neither the console nor the
    saved file. *)
Definition script (data : Dataset) : M unit :=
  (dm <- report data ;;
   img <- lift (render data (fst dm) (snd dm)) ;;
   lift (tight_layout K img) ;;
   savefig K img ;;
   print LSaved)%py.

End Script.

(** One run of the script in a fresh process: nothing printed yet, no
    output file written by this run. *)
Definition execute (K : Kernels) (secret : HashSecret) (data : Dataset)
  : World * Res unit :=
  script K secret data {| stdout := []; png := None |}.

Definition console (r : World * Res unit) : list Line := stdout (fst r).
Definition written (r : World * Res unit) : option Image := png (fst r).
Definition outcome (r : World * Res unit) : Res unit := snd r.

(** ** Reference kernels

    A plain left-to-right instance of the NumPy reductions, with a layout
    that accepts every text and a writable output file, used to run
    the model on concrete datasets. *)
Module Ref.

Definition fmin (a b : float) : float :=
  if is_nan a then a else if is_nan b then b else if (b <? a)%float then b else a.

Definition fmax (a b : float) : float :=
  if is_nan a then a else if is_nan b then b else if (a <? b)%float then b else a.

Definition reduce (f : float -> float -> float) (a : list float) : float :=
  match a with
  | [] => nan
  | h :: t => fold_left f t h
  end.

Definition sum (a : list float) : float := fold_left PrimFloat.add a 0%float.

Definition mean (a : list float) : float :=
  (sum a / float_of_Z (Z.of_nat (List.length a)))%float.

Definition std (a : list float) : float :=
  let m := mean a in
  sqrt (mean (map (fun v => (abs (v - m) * abs (v - m))%float) a)).

Fixpoint insert (v : float) (a : list float) : list float :=
  match a with
  | [] => [v]
  | h :: t => if (v <=? h)%float then v :: a else h :: insert v t
  end.

Definition sort (a : list float) : list float := fold_right insert [] a.

Definition median (a : list float) : float :=
  if existsb is_nan a then nan
  else
    let s := sort a in
    let n := List.length a in
    if Nat.even n then ((nth (n / 2 - 1) s nan + nth (n / 2) s nan) / 2)%float
    else nth (n / 2) s nan.

Fixpoint insert_by (d : list Z) (i : nat) (order : list nat) : list nat :=
  match order with
  | [] => [i]
  | j :: t => if nth i d 0 <=? nth j d 0 then i :: order else j :: insert_by d i t
  end.

Definition argsort (d : list Z) : list nat :=
  fold_right (insert_by d) [] (seq 0 (List.length d)).

End Ref.

Definition ref_kernels : Kernels :=
  {| amin := Ref.reduce Ref.fmin; amax := Ref.reduce Ref.fmax;
     mean := Ref.mean; std := Ref.std; median := Ref.median;
     argsort := Ref.argsort;
     lays_out := fun _ => true; can_write := fun _ => true |}.

(** ** Vocabulary of the specification *)

(** Number of edge endpoints touching node [i]: an edge counts once for
    its source and once for its target, so a self-loop counts twice. *)
Definition endpoints_at (i : nat) (edges : list Edge) : nat :=
  Nat.add (List.length (filter (fun e => e_src e =? Z.of_nat i) edges))
          (List.length (filter (fun e => e_tgt e =? Z.of_nat i) edges)).

(** A valid node index of a dataset with [n] nodes. *)
Definition valid_index (n : nat) (i : Z) : Prop := 0 <= i < Z.of_nat n.

(** An index the array subscript accepts: valid, or negative and counted
    from the end. *)
Definition subscriptable (n : nat) (i : Z) : Prop :=
  - Z.of_nat n <= i < Z.of_nat n.

Definition total_degree (degrees : list Z) : Z := fold_right Z.add 0 degrees.

(** Number of nodes whose rounded coordinate equals [k]. *)
Definition occupancy (k : Key) (keys : list Key) : nat :=
  List.length (filter (key_eqb k) keys).

(** One representative (the first) of every distinct coordinate. *)
Fixpoint distinct (keys : list Key) : list Key :=
  match keys with
  | [] => []
  | k :: keys' => k :: filter (fun k' => negb (key_eqb k k')) (distinct keys')
  end.

(** Number of distinct coordinates occupied by more than one node. *)
Definition multi_occupied (keys : list Key) : nat :=
  List.length (filter (fun k => (1 <? occupancy k keys)%nat) (distinct keys)).

(** The overlap count built by adding the nodes one at a time: a node
    adds one when it lands on a coordinate held by exactly one node so
    far. *)
Fixpoint incremental_overlaps (keys : list Key) : nat :=
  match keys with
  | [] => 0
  | k :: keys' =>
      Nat.add (incremental_overlaps keys') (if (occupancy k keys' =? 1)%nat then 1 else 0)
  end.

(** Both endpoints of an edge are accepted by the subscript. *)
Definition endpoints_ok (n : nat) (e : Edge) : Prop :=
  subscriptable n (e_src e) /\ subscriptable n (e_tgt e).

(** [c.get(k, 0)]: the count stored under the first key equal to [k]. *)
Fixpoint lookup (k : Key) (c : list (Key * nat)) : nat :=
  match c with
  | [] => 0
  | (k', n) :: c' => if key_eqb k' k then n else lookup k c'
  end.

(** Number of entries of a counter whose count exceeds one. *)
Definition multi (c : list (Key * nat)) : nat :=
  List.length (filter (fun kc => (1 <? snd kc)%nat) c).

(** The rounded coordinate of a node. *)
Definition rounded_key (n : Node) : Key := (py_round1 (node_x n), py_round1 (node_y n)).

(** *** Rounding to one decimal place, in the words of the specification *)

(** [k] is the integer nearest to ten times [m * 2^e], the even one of
    the two when they are equally near.  Ten times [m * 2^e] is the
    fraction [num / den]. *)
Definition nearest_tenths (m : positive) (e : Z) (k : Z) : Prop :=
  let num := 10 * Z.pos m * 2 ^ Z.max e 0 in
  let den := 2 ^ Z.max (- e) 0 in
  2 * Z.abs (num - k * den) <= den /\
  (2 * Z.abs (num - k * den) = den -> Z.even k = true).

(** The double nearest to [k / 10], with the sign [s]. *)
Definition tenths (s : bool) (k : Z) : float :=
  match k with
  | Z.pos p => SF2Prim (SFdiv prec emax (S754_finite s p 0) (S754_finite false 10 0))
  | _ => SF2Prim (S754_zero s)
  end.

(** [y] is [x] rounded to one decimal place: a finite [x] goes to the
    double nearest to the nearest multiple of one tenth (ties between
    two multiples to the even one), anything else stays. *)
Definition rounds_to_tenths (x y : float) : Prop :=
  match Prim2SF x with
  | S754_finite s m e => exists k, 0 <= k /\ nearest_tenths m e k /\ y = tenths s k
  | _ => y = x
  end.

(** [k] holds both coordinates of the node rounded to one decimal
    place. *)
Definition rounded_position (n : Node) (k : Key) : Prop :=
  rounds_to_tenths (node_x n) (fst k) /\ rounds_to_tenths (node_y n) (snd k).

(** Two floats are the same number: equal and not NaN, or both a zero. *)
Definition same_number (x y : float) : Prop :=
  (x = y /\ is_nan x = false) \/
  (exists s1 s2, Prim2SF x = S754_zero s1 /\ Prim2SF y = S754_zero s2).

(** All pairs [(i, j)] with [i < j < m]. *)
Definition pairs (m : nat) : list (nat * nat) :=
  filter (fun ij => (fst ij <? snd ij)%nat) (list_prod (seq 0 m) (seq 0 m)).

(** The coordinate the script reads for the endpoint [i] of an edge. *)
Definition coord (a : list float) (i : Z) : float :=
  match getitem nan a i with
  | inr v => v
  | inl _ => nan
  end.

(** Both coordinates of endpoint [i] are strictly inside the window of
    half-width [radius] centred at [(cx, cy)]. *)
Definition endpoint_inside (xs ys : list float) (cx cy radius : float) (i : Z) : bool :=
  in_window cx cy radius (coord xs i) (coord ys i).

Definition edge_inside (xs ys : list float) (cx cy radius : float) (e : Edge) : bool :=
  endpoint_inside xs ys cx cy radius (e_src e) && endpoint_inside xs ys cx cy radius (e_tgt e).

Definition segment_of (xs ys : list float) (e : Edge) : Segment :=
  ((coord xs (e_src e), coord ys (e_src e)), (coord xs (e_tgt e), coord ys (e_tgt e))).

(** The first seven lines of the report, printed before the degree loop. *)
Definition head_lines (K : Kernels) (data : Dataset) : list Line :=
  let xs := map node_x (ds_nodes data) in
  let ys := map node_y (ds_nodes data) in
  [ LNodes (List.length (ds_nodes data)); LEdges (List.length (ds_edges data));
    LXRange (amin K xs) (amax K xs); LYRange (amin K ys) (amax K ys);
    LStd (np_std K xs) (np_std K ys);
    LAnyNaN (existsb is_nan xs || existsb is_nan ys);
    LAnyInf (existsb is_infinity xs || existsb is_infinity ys) ].

(** ** Sample datasets and hash secrets *)

Definition mk_node (x y : float) : Node :=
  {| node_x := x; node_y := y; node_label := "n" |}.

Definition mk_edge (s t ty : Z) : Edge := {| e_src := s; e_tgt := t; e_ty := ty |}.

(** Three nodes, two of them 0.04 apart, and one edge. *)
Definition sample_data : Dataset :=
  {| ds_nodes := [mk_node 0 0; mk_node 0 0.04; mk_node 10 10];
     ds_edges := [mk_edge 0 1 0] |}.

(** The same nodes in another order. *)
Definition sample_nodes_reordered : list Node :=
  [mk_node 0 0.04; mk_node 10 10; mk_node 0 0].

(** Kernels whose layout refuses a figure with a dollar sign in a label,
    and kernels that cannot write the output file. *)
Definition has_dollar (s : string) : bool :=
  existsb (Ascii.eqb "$"%char) (list_ascii_of_string s).

Definition strict_layout_kernels : Kernels :=
  {| amin := amin ref_kernels; amax := amax ref_kernels; mean := mean ref_kernels;
     std := std ref_kernels; median := median ref_kernels; argsort := argsort ref_kernels;
     lays_out := fun img =>
       negb (existsb (fun a => has_dollar (an_text a))
                     (p_labels (panel2 img) ++ p_labels (panel3 img)));
     can_write := fun _ => true |}.

Definition read_only_kernels : Kernels :=
  {| amin := amin ref_kernels; amax := amax ref_kernels; mean := mean ref_kernels;
     std := std ref_kernels; median := median ref_kernels; argsort := argsort ref_kernels;
     lays_out := fun _ => true; can_write := fun _ => false |}.

(** Two nodes joined by an edge, one labelled with an unfinished formula. *)
Definition formula_data : Dataset :=
  {| ds_nodes := [{| node_x := 0; node_y := 0; node_label := "$\frac$" |}; mk_node 3 4];
     ds_edges := [mk_edge 0 1 0] |}.

(** Two nodes spread ten times wider in y than in x, joined by an edge. *)
Definition tall_data : Dataset :=
  {| ds_nodes := [mk_node 0 0; mk_node 1 10]; ds_edges := [mk_edge 0 1 0] |}.

(** Two nodes, one edge whose target is the index -1. *)
Definition negative_index_data : Dataset :=
  {| ds_nodes := [mk_node 0 0; mk_node 3 4]; ds_edges := [mk_edge 0 (-1) 0] |}.

(** One node, one edge whose target is the index 1 (one past the end). *)
Definition past_end_data : Dataset :=
  {| ds_nodes := [mk_node 0 0]; ds_edges := [mk_edge 0 1 0] |}.

(** Two nodes and no edge. *)
Definition no_edges_data : Dataset :=
  {| ds_nodes := [mk_node 0 0; mk_node 3 4]; ds_edges := [] |}.

(** One node with a self-loop. *)
Definition single_node_data : Dataset :=
  {| ds_nodes := [mk_node 0 0]; ds_edges := [mk_edge 0 0 0] |}.

Definition empty_data : Dataset := {| ds_nodes := []; ds_edges := [] |}.

(** Two nodes and one edge from node 0 to the endpoint [t]. *)
Definition endpoint_data (t : Z) : Dataset :=
  {| ds_nodes := [mk_node 0 0; mk_node 3 4]; ds_edges := [mk_edge 0 t 0] |}.

(** The secret of an interpreter started with [PYTHONHASHSEED=0]. *)
Definition secret_seed0 : HashSecret := {| k0 := 0; k1 := 0 |}.

(** The secret of an interpreter started with [PYTHONHASHSEED=1]. *)
Definition secret_seed1 : HashSecret :=
  {| k0 := 12598376723466036009; k1 := 16999324916296290386 |}.

(** The three lines printed after a successful degree loop. *)
Definition mid_lines (data : Dataset) (degrees : list Z) (max_degree : Z) : list Line :=
  [ LMaxDegree max_degree;
    LIsolated (count_eq 0 degrees) (count_eq 1 degrees);
    LOverlaps (overlaps (map node_x (ds_nodes data)) (map node_y (ds_nodes data))) ].

(** The pairwise-distance line, for a non-empty sample. *)
Definition pairwise_line (K : Kernels) (data : Dataset) : Line :=
  let dists := pair_dists (map node_x (ds_nodes data)) (map node_y (ds_nodes data))
                          (List.length (ds_nodes data)) in
  LPairwise (amin K dists) (np_median K dists) (np_mean K dists).

(** The edge-length line, for a non-empty list of lengths. *)
Definition edge_line (K : Kernels) (lens : list float) : Line :=
  LEdgeLengths (amin K lens) (np_median K lens) (np_mean K lens) (amax K lens).

(** The twelve statistics lines of a complete report. *)
Definition stats_lines (K : Kernels) (data : Dataset) (degrees : list Z)
    (max_degree : Z) (lens : list float) : list Line :=
  head_lines K data ++ mid_lines data degrees max_degree
    ++ [pairwise_line K data; edge_line K lens].

Definition world (out : list Line) (file : option Image) : World :=
  {| stdout := out; png := file |}.

(** ** Vocabulary for the rest of the script *)

(** The position an accepted subscript addresses. *)
Definition position (n : nat) (i : Z) : nat :=
  Z.to_nat (if i <? 0 then i + Z.of_nat n else i).

(** The subscript [z] addresses node [i] of [n]: it is [i] itself, or
    [i - n] counted from the end. *)
Definition touches (n i : nat) (z : Z) : bool :=
  (z =? Z.of_nat i) || (z =? Z.of_nat i - Z.of_nat n).

(** Number of edge endpoints whose subscript addresses node [i]. *)
Definition endpoints_on (n i : nat) (edges : list Edge) : nat :=
  Nat.add (List.length (filter (fun e => touches n i (e_src e)) edges))
          (List.length (filter (fun e => touches n i (e_tgt e)) edges)).

(** The length the script computes for an edge. *)
Definition edge_length_of (xs ys : list float) (e : Edge) : float :=
  euclid (coord xs (e_src e)) (coord ys (e_src e)) (coord xs (e_tgt e)) (coord ys (e_tgt e)).

(** Centre and half-width of the Panel 2 window. *)
Definition window_of (K : Kernels) (data : Dataset) : float * float * float :=
  let xs := map node_x (ds_nodes data) in
  let ys := map node_y (ds_nodes data) in
  (np_mean K xs, np_mean K ys, (2 * py_max (np_std K xs) (np_std K ys))%float).

(** The four axis limits of Panel 2 are finite numbers. *)
Definition limits_finite (K : Kernels) (data : Dataset) : bool :=
  let '(cx, cy, radius) := window_of K data in
  (is_finite (cx - radius) && is_finite (cx + radius))
  && (is_finite (cy - radius) && is_finite (cy + radius)).

(** A node lies strictly inside the Panel 2 window. *)
Definition node_inside (K : Kernels) (data : Dataset) (n : Node) : bool :=
  let '(cx, cy, radius) := window_of K data in
  in_window cx cy radius (node_x n) (node_y n).

(** Sum of the counts held by a counter. *)
Definition counter_total (c : list (Key * nat)) : nat :=
  fold_right (fun kc acc => Nat.add (snd kc) acc) 0%nat c.

(** An edge with each endpoint replaced by the position it addresses. *)
Definition normalize_edge (n : nat) (e : Edge) : Edge :=
  {| e_src := Z.of_nat (position n (e_src e));
     e_tgt := Z.of_nat (position n (e_tgt e));
     e_ty := e_ty e |}.

(** The dataset with every edge endpoint written as a position in
    [0, N). *)
Definition normalize_data (data : Dataset) : Dataset :=
  {| ds_nodes := ds_nodes data;
     ds_edges := map (normalize_edge (List.length (ds_nodes data))) (ds_edges data) |}.

(** Everything between the statistics and the last line: the rendering,
    the layout, and the check that the file can be written.  It gives the
    image a run saves, or the exception that stops the run after its
    statistics. *)
Definition figure (K : Kernels) (secret : HashSecret) (data : Dataset)
    (degrees : list Z) (m : Z) : Res Image :=
  res_bind (render K secret data degrees m) (fun img =>
  res_bind (tight_layout K img) (fun _ =>
  if can_write K (geometry img) then inr img else inl SaveError)).

(** A subscript that fits a C long. *)
Definition fits_long (i : Z) : Prop := - 2 ^ 63 <= i < 2 ^ 63.

(** The figure the plotting calls build, before it is laid out. *)
Definition drawing (K : Kernels) (secret : HashSecret) (data : Dataset) : Res Image :=
  res_bind (compute_degrees (List.length (ds_nodes data)) (ds_edges data)) (fun degrees =>
  res_bind (int_max degrees) (fun m => render K secret data degrees m)).

(** The place of a line in the fixed order of the report. *)
Definition line_kind (l : Line) : nat :=
  match l with
  | LNodes _ => 0
  | LEdges _ => 1
  | LXRange _ _ => 2
  | LYRange _ _ => 3
  | LStd _ _ => 4
  | LAnyNaN _ => 5
  | LAnyInf _ => 6
  | LMaxDegree _ => 7
  | LIsolated _ _ => 8
  | LOverlaps _ => 9
  | LPairwise _ _ _ => 10
  | LEdgeLengths _ _ _ _ => 11
  | LSaved => 12
  end.

(** * Properties *)

(** ** Array subscripts *)

Lemma normalize_index_valid (n : nat) (i : Z) :
  valid_index n i -> normalize_index n i = inr (Z.to_nat i).
Proof.
  unfold valid_index, normalize_index; intros [H0 H1].
  apply Z.leb_le in H0; apply Z.ltb_lt in H1.
  now rewrite H0, H1.
Qed.

Lemma normalize_index_inr (n : nat) (i : Z) (p : nat) :
  normalize_index n i = inr p -> subscriptable n i /\ (p < n)%nat.
Proof.
  unfold normalize_index, subscriptable.
  destruct (0 <=? i) eqn:H0, (i <? Z.of_nat n) eqn:H1; simpl;
    destruct (- Z.of_nat n <=? i) eqn:H2, (i <? 0) eqn:H3; simpl;
    intros H; inversion H; subst; clear H;
    rewrite ?Z.leb_le, ?Z.ltb_lt, ?Z.leb_gt, ?Z.ltb_ge in *; lia.
Qed.

Lemma normalize_index_subscriptable (n : nat) (i : Z) :
  subscriptable n i -> exists p, normalize_index n i = inr p /\ (p < n)%nat.
Proof.
  unfold normalize_index, subscriptable; intros H.
  destruct (0 <=? i) eqn:H0, (i <? Z.of_nat n) eqn:H1; simpl;
    destruct (- Z.of_nat n <=? i) eqn:H2, (i <? 0) eqn:H3; simpl;
    rewrite ?Z.leb_le, ?Z.ltb_lt, ?Z.leb_gt, ?Z.ltb_ge in *;
    try lia; eexists; split; try reflexivity; lia.
Qed.

Lemma normalize_index_inl (n : nat) (i : Z) (e : Exn) :
  normalize_index n i = inl e -> e = subscript_error n i /\ ~ subscriptable n i.
Proof.
  unfold normalize_index, subscriptable.
  destruct (0 <=? i) eqn:H0, (i <? Z.of_nat n) eqn:H1; simpl;
    destruct (- Z.of_nat n <=? i) eqn:H2, (i <? 0) eqn:H3; simpl;
    intros H; inversion H; subst; clear H;
    rewrite ?Z.leb_le, ?Z.ltb_lt, ?Z.leb_gt, ?Z.ltb_ge in *; split; try reflexivity; lia.
Qed.

Lemma set_nth_length {A} (p : nat) (v : A) (a : list A) :
  List.length (set_nth p v a) = List.length a.
Proof.
  revert p; induction a as [|h a IH]; intros [|p]; simpl; auto.
Qed.

Lemma nth_set_nth (p q : nat) (v : Z) (a : list Z) :
  (p < List.length a)%nat ->
  nth q (set_nth p v a) 0 = if Nat.eqb q p then v else nth q a 0.
Proof.
  revert p q; induction a as [|h a IH]; intros [|p] [|q]; simpl; intros H;
    try lia; auto.
  apply IH; lia.
Qed.

Lemma total_degree_set_nth (p : nat) (a : list Z) :
  (p < List.length a)%nat ->
  total_degree (set_nth p (nth p a 0 + 1) a) = total_degree a + 1.
Proof.
  revert p; induction a as [|h a IH]; intros [|p]; simpl; intros H; try lia.
  rewrite IH by lia. lia.
Qed.

(** ** The degree loop *)

Lemma incr_item_valid (a : list Z) (i : Z) :
  valid_index (List.length a) i ->
  incr_item a i = inr (set_nth (Z.to_nat i) (nth (Z.to_nat i) a 0 + 1) a).
Proof.
  intros H; unfold incr_item. now rewrite (normalize_index_valid _ _ H).
Qed.

Lemma endpoints_at_cons (i : nat) (e : Edge) (edges : list Edge) :
  Z.of_nat (endpoints_at i (e :: edges)) =
  (if e_src e =? Z.of_nat i then 1 else 0) + (if e_tgt e =? Z.of_nat i then 1 else 0)
  + Z.of_nat (endpoints_at i edges).
Proof.
  unfold endpoints_at; cbn [filter].
  destruct (e_src e =? Z.of_nat i), (e_tgt e =? Z.of_nat i); cbn [List.length]; lia.
Qed.

Lemma degree_loop_valid (n : nat) (edges : list Edge) :
  Forall (fun e => valid_index n (e_src e) /\ valid_index n (e_tgt e)) edges ->
  forall d0, List.length d0 = n ->
  exists degrees,
    degree_loop edges d0 = inr degrees /\
    List.length degrees = n /\
    (forall i, (i < n)%nat ->
       nth i degrees 0 = nth i d0 0 + Z.of_nat (endpoints_at i edges)) /\
    total_degree degrees = total_degree d0 + 2 * Z.of_nat (List.length edges).
Proof.
  induction 1 as [|e edges [Hs Ht] _ IH]; intros d0 Hlen.
  - exists d0; simpl; repeat split; auto; intros; unfold endpoints_at; simpl; lia.
  - cbn [degree_loop].
    rewrite incr_item_valid by (rewrite Hlen; exact Hs). cbn [res_bind].
    rewrite incr_item_valid by (rewrite set_nth_length, Hlen; exact Ht). cbn [res_bind].
    set (d1 := set_nth (Z.to_nat (e_src e)) _ d0).
    set (d2 := set_nth (Z.to_nat (e_tgt e)) _ d1).
    assert (L1 : List.length d1 = n) by (unfold d1; now rewrite set_nth_length).
    assert (L2 : List.length d2 = n) by (unfold d2; now rewrite set_nth_length).
    destruct (IH d2 L2) as (degrees & Hrun & Hl & Hnth & Hsum).
    exists degrees; repeat split; auto.
    + intros i Hi. rewrite (Hnth i Hi), endpoints_at_cons.
      unfold d2. rewrite nth_set_nth by (rewrite L1; unfold valid_index in Ht; lia).
      unfold d1 at 2. rewrite nth_set_nth by (rewrite Hlen; unfold valid_index in Hs; lia).
      unfold valid_index in Hs, Ht.
      destruct (Nat.eqb_spec i (Z.to_nat (e_tgt e))) as [E1|E1];
        destruct (Nat.eqb_spec i (Z.to_nat (e_src e))) as [E2|E2];
        destruct (Z.eqb_spec (e_src e) (Z.of_nat i)) as [E3|E3];
        destruct (Z.eqb_spec (e_tgt e) (Z.of_nat i)) as [E4|E4]; try lia.
      all: subst i; unfold d1.
      all: try (rewrite nth_set_nth by (rewrite Hlen; lia)).
      all: try rewrite Nat.eqb_refl.
      all: try (destruct (Nat.eqb_spec (Z.to_nat (e_tgt e)) (Z.to_nat (e_src e))); try lia).
      all: replace (e_src e) with (e_tgt e) by lia; lia.
    + rewrite Hsum. unfold d2.
      rewrite total_degree_set_nth by (rewrite L1; unfold valid_index in Ht; lia).
      unfold d1. rewrite total_degree_set_nth by (rewrite Hlen; unfold valid_index in Hs; lia).
      rewrite length_cons. lia.
Qed.

Lemma nth_repeat_zero (n i : nat) : nth i (repeat 0 n) 0 = 0.
Proof. revert i; induction n; intros [|i]; simpl; auto. Qed.

Lemma total_degree_repeat_zero (n : nat) : total_degree (repeat 0 n) = 0.
Proof. induction n; simpl; auto. Qed.

(** C5. For a dataset whose edge endpoints are all valid node indices, the
    degree loop succeeds; the degree of every node is the number of edge
    endpoints touching it (a self-loop contributes 2), and the degrees sum
    to twice the number of edges. *)
Theorem degrees_count_endpoints (n : nat) (edges : list Edge) :
  Forall (fun e => valid_index n (e_src e) /\ valid_index n (e_tgt e)) edges ->
  exists degrees,
    compute_degrees n edges = inr degrees /\
    List.length degrees = n /\
    (forall i, (i < n)%nat -> nth i degrees 0 = Z.of_nat (endpoints_at i edges)) /\
    (forall i ty, endpoints_at i [mk_edge (Z.of_nat i) (Z.of_nat i) ty] = 2%nat) /\
    total_degree degrees = 2 * Z.of_nat (List.length edges).
Proof.
  intros H.
  destruct (degree_loop_valid n edges H (repeat 0 n) (repeat_length 0 n))
    as (degrees & Hrun & Hl & Hnth & Hsum).
  exists degrees; repeat split; auto.
  - intros i Hi. rewrite (Hnth i Hi), nth_repeat_zero. lia.
  - intros i ty. unfold endpoints_at; simpl. now rewrite Z.eqb_refl.
  - rewrite Hsum, total_degree_repeat_zero. lia.
Qed.

Lemma incr_item_length (a a' : list Z) (i : Z) :
  incr_item a i = inr a' -> List.length a' = List.length a.
Proof.
  unfold incr_item. destruct (normalize_index _ i) as [e|p]; cbn [res_bind]; intros H.
  - discriminate.
  - inversion H; subst. apply set_nth_length.
Qed.

Lemma degree_loop_length (edges : list Edge) :
  forall d0 degrees, degree_loop edges d0 = inr degrees ->
                     List.length degrees = List.length d0.
Proof.
  induction edges as [|e edges IH]; intros d0 degrees; cbn [degree_loop].
  - intros H; inversion H; auto.
  - destruct (incr_item d0 (e_src e)) as [x|d1] eqn:H1; cbn [res_bind]; try discriminate.
    destruct (incr_item d1 (e_tgt e)) as [x|d2] eqn:H2; cbn [res_bind]; try discriminate.
    intros H. rewrite (IH _ _ H), (incr_item_length _ _ _ H2).
    apply (incr_item_length _ _ _ H1).
Qed.

Lemma compute_degrees_length (n : nat) (edges : list Edge) (degrees : list Z) :
  compute_degrees n edges = inr degrees -> List.length degrees = n.
Proof.
  intros H. apply degree_loop_length in H. now rewrite repeat_length in H.
Qed.

Lemma int_max_nonempty (degrees : list Z) :
  degrees <> [] -> exists m, int_max degrees = inr m.
Proof. destruct degrees; [congruence | eexists; reflexivity]. Qed.

(** ** Symbolic execution of the script *)

Ltac step :=
  cbv beta iota zeta delta [bind lift print ret savefig world];
  cbn [fst snd stdout png app map List.length np_min np_max ds_nodes ds_edges].

(** Every way a run can go, with what it leaves behind. *)
Lemma execute_cases (K : Kernels) (secret : HashSecret) (data : Dataset) :
  let nodes := ds_nodes data in
  let edges := ds_edges data in
  let xs := map node_x nodes in
  let ys := map node_y nodes in
  let n := List.length nodes in
  let r := execute K secret data in
  (nodes = [] /\
   r = (world [LNodes 0; LEdges (List.length edges)] None, inl (ZeroSizeReduction Minimum)))
  \/
  (nodes <> [] /\ exists e,
     compute_degrees n edges = inl e /\ r = (world (head_lines K data) None, inl e))
  \/
  (nodes <> [] /\ exists degrees m,
     compute_degrees n edges = inr degrees /\ int_max degrees = inr m /\
     let pre := head_lines K data ++ mid_lines data degrees m in
     (pair_dists xs ys n = [] /\ r = (world pre None, inl (ZeroSizeReduction Minimum)))
     \/
     (pair_dists xs ys n <> [] /\
      ((exists e, edge_lens xs ys edges = inl e /\
                  r = (world (pre ++ [pairwise_line K data]) None, inl e))
       \/
       (edge_lens xs ys edges = inr [] /\
        r = (world (pre ++ [pairwise_line K data]) None, inl (ZeroSizeReduction Minimum)))
       \/
       (exists lens, edge_lens xs ys edges = inr lens /\ lens <> [] /\
          ((exists e, figure K secret data degrees m = inl e /\
                      r = (world (stats_lines K data degrees m lens) None, inl e))
           \/
           (exists img, figure K secret data degrees m = inr img /\
                        r = (world (stats_lines K data degrees m lens ++ [LSaved]) (Some img),
                             inr tt))))))).
Proof.
  destruct data as [nodes edges]; cbn zeta; cbn [ds_nodes ds_edges].
  destruct nodes as [|n0 nodes]; [left; split; reflexivity | right].
  assert (Hne : n0 :: nodes <> []) by discriminate.
  unfold execute, script, report; step.
  destruct (compute_degrees (S (List.length nodes)) edges) as [e|degrees] eqn:Hd; step.
  { left; split; [exact Hne|]. exists e; split; reflexivity. }
  right; split; [exact Hne|].
  destruct (int_max_nonempty degrees) as [m Hm].
  { apply compute_degrees_length in Hd. destruct degrees; [discriminate | congruence]. }
  exists degrees, m. split; [reflexivity|]. split; [exact Hm|].
  rewrite Hm; step.
  match goal with |- context [pair_dists ?a ?b ?c] =>
    destruct (pair_dists a b c) as [|d0 dists] eqn:Hp end; step.
  { left; split; reflexivity. }
  right; split; [discriminate|].
  match goal with |- context [edge_lens ?a ?b ?c] =>
    destruct (edge_lens a b c) as [e|lens] eqn:Hl end; step.
  { left. exists e; split; [reflexivity|]. unfold pairwise_line; step. rewrite Hp. reflexivity. }
  right.
  destruct lens as [|l0 lens]; step.
  { left; split; [reflexivity|]. unfold pairwise_line; step. rewrite Hp. reflexivity. }
  right. exists (l0 :: lens). split; [reflexivity|]. split; [discriminate|].
  unfold figure, tight_layout.
  match goal with |- context [render ?a ?b ?c ?d ?e] =>
    destruct (render a b c d e) as [e'|img] eqn:Hr end; step; cbn [res_bind].
  { left. exists e'; split; [reflexivity|].
    unfold stats_lines, pairwise_line; step. rewrite Hp. reflexivity. }
  destruct (lays_out K (geometry img)); step; cbn [res_bind].
  2:{ left. exists LayoutError; split; [reflexivity|].
      unfold stats_lines, pairwise_line; step. rewrite Hp. reflexivity. }
  destruct (can_write K (geometry img)); step.
  - right. exists img; split; [reflexivity|].
    unfold stats_lines, pairwise_line; step. rewrite Hp. reflexivity.
  - left. exists SaveError; split; [reflexivity|].
    unfold stats_lines, pairwise_line; step. rewrite Hp. reflexivity.
Qed.

(** What the last stage of a run did, read off its result. *)
Lemma figure_inr (K : Kernels) (secret : HashSecret) (data : Dataset)
    (degrees : list Z) (m : Z) (img : Image) :
  figure K secret data degrees m = inr img ->
  render K secret data degrees m = inr img /\
  lays_out K (geometry img) = true /\ can_write K (geometry img) = true.
Proof.
  unfold figure, tight_layout.
  destruct (render K secret data degrees m) as [x|img']; cbn [res_bind]; [discriminate|].
  destruct (lays_out K (geometry img')) eqn:El; cbn [res_bind]; [|discriminate].
  destruct (can_write K (geometry img')) eqn:Ew; [|discriminate].
  intros H; inversion H; subst. auto.
Qed.

Lemma figure_inl (K : Kernels) (secret : HashSecret) (data : Dataset)
    (degrees : list Z) (m : Z) (x : Exn) :
  figure K secret data degrees m = inl x ->
  render K secret data degrees m = inl x \/
  exists img, render K secret data degrees m = inr img /\
    ((lays_out K (geometry img) = false /\ x = LayoutError) \/
     (lays_out K (geometry img) = true /\ can_write K (geometry img) = false /\ x = SaveError)).
Proof.
  unfold figure, tight_layout.
  destruct (render K secret data degrees m) as [x'|img]; cbn [res_bind]; [auto|].
  intros H. right. exists img. split; [reflexivity|].
  destruct (lays_out K (geometry img)); cbn [res_bind] in H.
  - destruct (can_write K (geometry img)); [discriminate|]. inversion H. auto.
  - inversion H. auto.
Qed.

(** ** Subscripts that raise, and subscripts that do not *)


Lemma getitem_subscriptable {A} (d : A) (a : list A) (i : Z) :
  subscriptable (List.length a) i -> exists v, getitem d a i = inr v.
Proof.
  intros H. unfold getitem.
  destruct (normalize_index_subscriptable _ _ H) as (p & Hp & _).
  rewrite Hp. eexists; reflexivity.
Qed.

Lemma getitem_coord (a : list float) (i : Z) (v : float) :
  getitem nan a i = inr v -> coord a i = v.
Proof. unfold coord; now intros ->. Qed.

Lemma incr_item_subscriptable (a : list Z) (i : Z) :
  subscriptable (List.length a) i ->
  exists a', incr_item a i = inr a' /\ List.length a' = List.length a.
Proof.
  intros H. unfold incr_item.
  destruct (normalize_index_subscriptable _ _ H) as (p & Hp & _).
  rewrite Hp. cbn [res_bind]. eexists; split; [reflexivity | apply set_nth_length].
Qed.

Lemma incr_item_inl (a : list Z) (i : Z) (e : Exn) :
  incr_item a i = inl e ->
  e = subscript_error (List.length a) i /\ ~ subscriptable (List.length a) i.
Proof.
  unfold incr_item.
  destruct (normalize_index _ i) as [e'|p] eqn:Hp; cbn [res_bind]; intros H.
  - inversion H; subst. now apply normalize_index_inl.
  - discriminate.
Qed.

Lemma incr_item_inr (a a' : list Z) (i : Z) :
  incr_item a i = inr a' -> subscriptable (List.length a) i.
Proof.
  unfold incr_item.
  destruct (normalize_index _ i) as [e'|p] eqn:Hp; cbn [res_bind]; intros H.
  - discriminate.
  - now apply normalize_index_inr in Hp.
Qed.

(** The degree loop succeeds exactly when every endpoint is accepted by
    the subscript. *)
Lemma degree_loop_total (n : nat) (edges : list Edge) :
  Forall (endpoints_ok n) edges ->
  forall d0, List.length d0 = n -> exists degrees, degree_loop edges d0 = inr degrees.
Proof.
  induction 1 as [|e edges [Hs Ht] _ IH]; intros d0 Hlen; cbn [degree_loop].
  - eexists; reflexivity.
  - rewrite <- Hlen in Hs.
    destruct (incr_item_subscriptable d0 _ Hs) as (d1 & -> & L1). cbn [res_bind].
    rewrite <- Hlen, <- L1 in Ht.
    destruct (incr_item_subscriptable d1 _ Ht) as (d2 & -> & L2). cbn [res_bind].
    apply IH. congruence.
Qed.

(** When the loop raises, it raises at the first endpoint, in the order
    source then target, that the subscript rejects. *)
Lemma degree_loop_inl (n : nat) (edges : list Edge) :
  forall d0 x, List.length d0 = n -> degree_loop edges d0 = inl x ->
  exists i before e after,
    x = subscript_error n i /\ ~ subscriptable n i /\
    edges = before ++ e :: after /\ Forall (endpoints_ok n) before /\
    (i = e_src e \/ (subscriptable n (e_src e) /\ i = e_tgt e)).
Proof.
  induction edges as [|e edges IH]; intros d0 x Hlen; cbn [degree_loop].
  - discriminate.
  - destruct (incr_item d0 (e_src e)) as [x1|d1] eqn:H1; cbn [res_bind].
    { intros H; inversion H; subst x1.
      apply incr_item_inl in H1. rewrite Hlen in H1. destruct H1 as [-> Hbad].
      exists (e_src e), [], e, edges. repeat split; auto. }
    pose proof (incr_item_length _ _ _ H1) as L1.
    pose proof (incr_item_inr _ _ _ H1) as S1. rewrite Hlen in S1.
    destruct (incr_item d1 (e_tgt e)) as [x2|d2] eqn:H2; cbn [res_bind].
    { intros H; inversion H; subst x2.
      apply incr_item_inl in H2. rewrite L1, Hlen in H2. destruct H2 as [-> Hbad].
      exists (e_tgt e), [], e, edges. repeat split; auto. }
    pose proof (incr_item_length _ _ _ H2) as L2.
    pose proof (incr_item_inr _ _ _ H2) as S2. rewrite L1, Hlen in S2.
    intros H. destruct (IH d2 x ltac:(congruence) H)
      as (i & before & e' & after & -> & Hbad & -> & Hok & Hi).
    exists i, (e :: before), e', after. repeat split; auto.
    constructor; [split|]; auto.
Qed.

Lemma degree_loop_inr (n : nat) (edges : list Edge) :
  forall d0 degrees, List.length d0 = n -> degree_loop edges d0 = inr degrees ->
  Forall (endpoints_ok n) edges.
Proof.
  induction edges as [|e edges IH]; intros d0 degrees Hlen; cbn [degree_loop].
  - constructor.
  - destruct (incr_item d0 (e_src e)) as [x1|d1] eqn:H1; cbn [res_bind]; try discriminate.
    destruct (incr_item d1 (e_tgt e)) as [x2|d2] eqn:H2; cbn [res_bind]; try discriminate.
    pose proof (incr_item_length _ _ _ H1) as L1.
    pose proof (incr_item_length _ _ _ H2) as L2.
    intros H. constructor.
    + split.
      * apply incr_item_inr in H1. now rewrite Hlen in H1.
      * apply incr_item_inr in H2. now rewrite L1, Hlen in H2.
    + apply (IH d2 degrees); congruence.
Qed.

Lemma compute_degrees_rejects (n : nat) (edges : list Edge) :
  Exists (fun e => ~ endpoints_ok n e) edges ->
  exists i before e after,
    compute_degrees n edges = inl (subscript_error n i) /\ ~ subscriptable n i /\
    edges = before ++ e :: after /\ Forall (endpoints_ok n) before /\
    (i = e_src e \/ (subscriptable n (e_src e) /\ i = e_tgt e)).
Proof.
  intros Hex. unfold compute_degrees.
  destruct (degree_loop edges (repeat 0 n)) as [x|degrees] eqn:H.
  - destruct (degree_loop_inl n edges _ x (repeat_length 0 n) H)
      as (i & before & e & after & -> & Hrest).
    exists i, before, e, after. split; [reflexivity | exact Hrest].
  - apply (degree_loop_inr n) in H; [|apply repeat_length].
    apply Exists_exists in Hex. destruct Hex as (e & Hin & Hbad).
    rewrite Forall_forall in H. now specialize (H e Hin).
Qed.

(** ** The rendering loops *)

Lemma segment_inr (xs ys : list float) (e : Edge) (sg : Segment) :
  segment xs ys e = inr sg -> sg = segment_of xs ys e.
Proof.
  unfold segment, segment_of, coord.
  destruct (getitem nan xs (e_src e)); cbn [res_bind]; try discriminate.
  destruct (getitem nan ys (e_src e)); cbn [res_bind]; try discriminate.
  destruct (getitem nan xs (e_tgt e)); cbn [res_bind]; try discriminate.
  destruct (getitem nan ys (e_tgt e)); cbn [res_bind]; try discriminate.
  now intros H; inversion H.
Qed.

Lemma mapM_inr {A B} (f : A -> Res B) (g : A -> B) :
  (forall a b, f a = inr b -> b = g a) ->
  forall l bs, mapM f l = inr bs -> bs = map g l.
Proof.
  intros Hf. induction l as [|a l IH]; intros bs; cbn [mapM map].
  - now intros H; inversion H.
  - destruct (f a) as [x|b] eqn:Ha; cbn [res_bind]; try discriminate.
    destruct (mapM f l) as [x|bs'] eqn:Hl; cbn [res_bind]; try discriminate.
    intros H; inversion H; subst. now rewrite (Hf _ _ Ha), (IH _ eq_refl).
Qed.

Lemma mapM_total {A B} (f : A -> Res B) (P : A -> Prop) :
  (forall a, P a -> exists b, f a = inr b) ->
  forall l, Forall P l -> exists bs, mapM f l = inr bs.
Proof.
  intros Hf. induction 1 as [|a l Ha _ IH]; cbn [mapM].
  - eexists; reflexivity.
  - destruct (Hf a Ha) as [b ->]. destruct IH as [bs ->]. cbn [res_bind].
    eexists; reflexivity.
Qed.

Section Endpoints.
Variables (xs ys : list float) (n : nat).
Hypothesis Hxs : List.length xs = n.
Hypothesis Hys : List.length ys = n.

Lemma segment_total (e : Edge) :
  endpoints_ok n e -> exists sg, segment xs ys e = inr sg.
Proof.
  intros [Hs Ht]. unfold segment.
  destruct (getitem_subscriptable nan xs (e_src e)) as [v1 ->]; [now rewrite Hxs|].
  destruct (getitem_subscriptable nan ys (e_src e)) as [v2 ->]; [now rewrite Hys|].
  destruct (getitem_subscriptable nan xs (e_tgt e)) as [v3 ->]; [now rewrite Hxs|].
  destruct (getitem_subscriptable nan ys (e_tgt e)) as [v4 ->]; [now rewrite Hys|].
  cbn [res_bind]. eexists; reflexivity.
Qed.

Lemma edge_len_total (e : Edge) :
  endpoints_ok n e -> exists d, edge_len xs ys e = inr d.
Proof.
  intros [Hs Ht]. unfold edge_len.
  destruct (getitem_subscriptable nan xs (e_src e)) as [v1 ->]; [now rewrite Hxs|].
  destruct (getitem_subscriptable nan xs (e_tgt e)) as [v3 ->]; [now rewrite Hxs|].
  destruct (getitem_subscriptable nan ys (e_src e)) as [v2 ->]; [now rewrite Hys|].
  destruct (getitem_subscriptable nan ys (e_tgt e)) as [v4 ->]; [now rewrite Hys|].
  cbn [res_bind]. eexists; reflexivity.
Qed.

Lemma edge_in_view_total (cx cy radius : float) (e : Edge) :
  endpoints_ok n e -> exists b, edge_in_view xs ys cx cy radius e = inr b.
Proof.
  intros [Hs Ht]. unfold edge_in_view.
  destruct (getitem_subscriptable nan xs (e_src e)) as [v1 ->]; [now rewrite Hxs|].
  destruct (getitem_subscriptable nan ys (e_src e)) as [v2 ->]; [now rewrite Hys|].
  destruct (getitem_subscriptable nan xs (e_tgt e)) as [v3 ->]; [now rewrite Hxs|].
  destruct (getitem_subscriptable nan ys (e_tgt e)) as [v4 ->]; [now rewrite Hys|].
  cbn [res_bind].
  repeat match goal with |- context [if ?c then _ else _] => destruct c end;
    cbn [res_bind]; eexists; reflexivity.
Qed.

Lemma edges_in_view_total (cx cy radius : float) (edges : list Edge) :
  Forall (endpoints_ok n) edges ->
  exists shown, edges_in_view xs ys cx cy radius edges = inr shown.
Proof.
  induction 1 as [|e edges He _ IH]; cbn [edges_in_view].
  - eexists; reflexivity.
  - destruct (edge_in_view_total cx cy radius e He) as [b ->].
    destruct IH as [shown ->]. cbn [res_bind]. eexists; reflexivity.
Qed.

End Endpoints.

Lemma edge_in_view_inr (xs ys : list float) (cx cy radius : float) (e : Edge) (b : bool) :
  edge_in_view xs ys cx cy radius e = inr b -> b = edge_inside xs ys cx cy radius e.
Proof.
  unfold edge_in_view, edge_inside, endpoint_inside, in_window, coord.
  destruct (getitem nan xs (e_src e)) as [x|v1]; cbn [res_bind]; try discriminate.
  destruct (abs (v1 - cx) <? radius)%float; cbn [negb andb];
    [|now intros H; inversion H].
  destruct (getitem nan ys (e_src e)) as [x|v2]; cbn [res_bind]; try discriminate.
  destruct (abs (v2 - cy) <? radius)%float; cbn [negb andb];
    [|now intros H; inversion H].
  destruct (getitem nan xs (e_tgt e)) as [x|v3]; cbn [res_bind]; try discriminate.
  destruct (abs (v3 - cx) <? radius)%float; cbn [negb andb];
    [|now intros H; inversion H].
  destruct (getitem nan ys (e_tgt e)) as [x|v4]; cbn [res_bind]; try discriminate.
  now intros H; inversion H.
Qed.

Lemma edges_in_view_inr (xs ys : list float) (cx cy radius : float) (edges : list Edge) :
  forall shown, edges_in_view xs ys cx cy radius edges = inr shown ->
                shown = filter (edge_inside xs ys cx cy radius) edges.
Proof.
  induction edges as [|e edges IH]; intros shown; cbn [edges_in_view filter].
  - now intros H; inversion H.
  - destruct (edge_in_view xs ys cx cy radius e) as [x|b] eqn:Hb; cbn [res_bind];
      try discriminate.
    destruct (edges_in_view xs ys cx cy radius edges) as [x|rest]; cbn [res_bind];
      try discriminate.
    intros H; inversion H; subst.
    rewrite <- (edge_in_view_inr _ _ _ _ _ _ _ Hb), (IH rest eq_refl). reflexivity.
Qed.

Lemma Forall_filter_keep {A} (P : A -> Prop) (f : A -> bool) (l : list A) :
  Forall P l -> Forall P (filter f l).
Proof.
  induction 1 as [|a l Ha _ IH]; cbn [filter]; [constructor|].
  destruct (f a); [constructor|]; auto.
Qed.

(** The shape of an image the rendering returns. *)
Lemma render_inr (K : Kernels) (secret : HashSecret) (data : Dataset)
    (degrees : list Z) (m : Z) (img : Image) :
  render K secret data degrees m = inr img ->
  let xs := map node_x (ds_nodes data) in
  let ys := map node_y (ds_nodes data) in
  let cx := np_mean K xs in
  let cy := np_mean K ys in
  let radius := (2 * py_max (np_std K xs) (np_std K ys))%float in
  let shown := filter (edge_inside xs ys cx cy radius) (ds_edges data) in
  let mask := map (fun p => in_window cx cy radius (fst p) (snd p)) (combine xs ys) in
  width_px img = 4500 /\ height_px img = 1500 /\
  p_xlim (panel2 img) = Some (cx - radius, cx + radius)%float /\
  p_ylim (panel2 img) = Some (cy - radius, cy + radius)%float /\
  p_lines (panel2 img) = map (segment_of xs ys) shown /\
  p_colors (panel2 img) = map (fun e => edge_color (e_ty e)) shown /\
  sc_x (p_scatter (panel2 img)) = select mask xs /\
  sc_y (p_scatter (panel2 img)) = select mask ys /\
  sc_c (p_scatter (panel1 img)) =
    HsvHues (hues_of secret (List.length (ds_nodes data))) 0.8%float /\
  sc_s (p_scatter (panel1 img)) = sizes_of degrees m.
Proof.
  unfold render. cbv zeta.
  destruct (mapM _ (ds_edges data)) as [x|lines] eqn:H1; cbn [res_bind]; try discriminate.
  unfold set_lim.
  destruct (is_finite _ && is_finite _); cbn [res_bind]; try discriminate.
  destruct (is_finite _ && is_finite _); cbn [res_bind]; try discriminate.
  destruct (edges_in_view _ _ _ _ _ _) as [x|shown] eqn:H2; cbn [res_bind]; try discriminate.
  destruct (mapM _ shown) as [x|lines2] eqn:H3; cbn [res_bind]; try discriminate.
  intros H; inversion H; subst img; clear H. cbn.
  apply edges_in_view_inr in H2. subst shown.
  apply (mapM_inr _ _ (segment_inr _ _)) in H3. subst lines2.
  repeat split; reflexivity.
Qed.

(** With every endpoint accepted by the subscript, the rendering can only
    stop at the axis limits. *)
Lemma render_inl (K : Kernels) (secret : HashSecret) (data : Dataset)
    (degrees : list Z) (m : Z) (x : Exn) :
  Forall (endpoints_ok (List.length (ds_nodes data))) (ds_edges data) ->
  render K secret data degrees m = inl x -> x = AxisLimitsNotFinite.
Proof.
  intros Hok. unfold render.
  set (xs := map node_x (ds_nodes data)). set (ys := map node_y (ds_nodes data)).
  assert (Lx : List.length xs = List.length (ds_nodes data)) by apply length_map.
  assert (Ly : List.length ys = List.length (ds_nodes data)) by apply length_map.
  destruct (mapM_total _ _ (segment_total xs ys _ Lx Ly) _ Hok) as [lines ->].
  cbn [res_bind]. unfold set_lim.
  destruct (is_finite _ && is_finite _); cbn [res_bind]; [|now intros H; inversion H].
  destruct (is_finite _ && is_finite _); cbn [res_bind]; [|now intros H; inversion H].
  match goal with |- context [edges_in_view xs ys ?a ?b ?c ?d] =>
    destruct (edges_in_view_total xs ys _ Lx Ly a b c d Hok) as [shown Hs] end.
  rewrite Hs. cbn [res_bind].
  destruct (mapM_total _ _ (segment_total xs ys _ Lx Ly) shown) as [lines2 ->].
  { apply edges_in_view_inr in Hs. subst shown. now apply Forall_filter_keep. }
  cbn [res_bind]. discriminate.
Qed.

(** The secret reaches the image through the hues only: whether the
    rendering succeeds, and with which exception it stops, is decided
    without it. *)
Lemma render_secret (K : Kernels) (s1 s2 : HashSecret) (data : Dataset)
    (degrees : list Z) (m : Z) :
  match render K s1 data degrees m, render K s2 data degrees m with
  | inl x1, inl x2 => x1 = x2
  | inr i1, inr i2 =>
      width_px i1 = width_px i2 /\ height_px i1 = height_px i2 /\
      geometry i1 = geometry i2
  | _, _ => False
  end.
Proof.
  unfold render.
  destruct (mapM _ (ds_edges data)) as [x|lines]; cbn [res_bind]; auto.
  destruct (set_lim _ _) as [x|xlim]; cbn [res_bind]; auto.
  destruct (set_lim _ _) as [x|ylim]; cbn [res_bind]; auto.
  destruct (edges_in_view _ _ _ _ _ _) as [x|shown]; cbn [res_bind]; auto.
  destruct (mapM _ shown) as [x|lines2]; cbn [res_bind]; auto.
Qed.

(** Layout and saving do not look at the colours. *)
Lemma script_tail_secret (K : Kernels) (s1 s2 : HashSecret) (data : Dataset)
    (degrees : list Z) (m : Z) (w : World) :
  let tail secret :=
    bind (lift (render K secret data degrees m)) (fun img =>
    bind (lift (tight_layout K img)) (fun _ =>
    bind (savefig K img) (fun _ => print LSaved))) w in
  stdout (fst (tail s1)) = stdout (fst (tail s2)) /\ snd (tail s1) = snd (tail s2).
Proof.
  cbv beta iota zeta delta [bind lift print savefig tight_layout].
  pose proof (render_secret K s1 s2 data degrees m) as H.
  destruct (render K s1 data _ _) as [x1|i1], (render K s2 data _ _) as [x2|i2];
    try contradiction; cbn [fst snd].
  - split; congruence.
  - destruct H as (_ & _ & <-).
    destruct (lays_out K (geometry i1)); cbn [fst snd]; [|split; reflexivity].
    destruct (can_write K (geometry i1)); cbn [fst snd stdout]; split; reflexivity.
Qed.

(** ** The pairwise sample *)

Lemma filter_ltb_seq (i : nat) : forall k a,
  filter (Nat.ltb i) (seq a k) = seq (Nat.max a (S i)) (a + k - Nat.max a (S i)).
Proof.
  induction k as [|k IH]; intros a.
  - cbn [seq filter]. replace (a + 0 - Nat.max a (S i))%nat with 0%nat by lia. reflexivity.
  - cbn [seq filter]. rewrite IH.
    destruct (Nat.ltb_spec i a) as [H|H].
    + replace (Nat.max a (S i)) with a by lia.
      replace (Nat.max (S a) (S i)) with (S a) by lia.
      replace (a + S k - a)%nat with (S k) by lia.
      replace (S a + k - S a)%nat with k by lia. reflexivity.
    + replace (Nat.max a (S i)) with (S i) by lia.
      replace (Nat.max (S a) (S i)) with (S i) by lia.
      f_equal; lia.
Qed.

Lemma filter_list_prod {A B} (P : A * B -> bool) (l : list A) (l' : list B) :
  filter P (list_prod l l') =
  flat_map (fun a => map (pair a) (filter (fun b => P (a, b)) l')) l.
Proof.
  induction l as [|a l IH]; cbn [list_prod flat_map]; [reflexivity|].
  rewrite filter_app, IH, filter_map_swap. reflexivity.
Qed.

Lemma map_flat_map_fuse {A B C} (f : B -> C) (g : A -> list B) (l : list A) :
  map f (flat_map g l) = flat_map (fun a => map f (g a)) l.
Proof.
  induction l as [|a l IH]; cbn [flat_map map]; [reflexivity|].
  now rewrite map_app, IH.
Qed.

Lemma flat_map_ext_in {A B} (f g : A -> list B) (l : list A) :
  (forall a, In a l -> f a = g a) -> flat_map f l = flat_map g l.
Proof.
  induction l as [|a l IH]; cbn [flat_map]; intros H; [reflexivity|].
  rewrite (H a (or_introl eq_refl)), IH; auto.
  intros b Hb; apply H; now right.
Qed.

(** The double loop visits exactly the pairs [i < j < m], in
    lexicographic order. *)
Lemma pair_dists_pairs (xs ys : list float) (n : nat) :
  pair_dists xs ys n =
  map (fun ij => node_dist xs ys (fst ij) (snd ij)) (pairs (Nat.min 500 n)).
Proof.
  unfold pair_dists, pairs. cbv zeta.
  rewrite filter_list_prod, map_flat_map_fuse.
  apply flat_map_ext_in. intros i Hi. apply in_seq in Hi.
  cbn [fst snd]. rewrite map_map. cbn [fst snd].
  rewrite filter_ltb_seq.
  replace (Nat.max 0 (S i)) with (S i) by lia.
  replace (0 + Nat.min 500 n - S i)%nat with (Nat.min 500 n - S i)%nat by lia.
  reflexivity.
Qed.

Lemma in_pairs (m i j : nat) : In (i, j) (pairs m) <-> (i < j < m)%nat.
Proof.
  unfold pairs. rewrite filter_In, in_prod_iff, !in_seq. cbn [fst snd].
  rewrite Nat.ltb_lt. lia.
Qed.

Lemma NoDup_list_prod {A B} (l : list A) (l' : list B) :
  NoDup l -> NoDup l' -> NoDup (list_prod l l').
Proof.
  intros Hl Hl'. induction Hl as [|a l Ha _ IH]; cbn [list_prod]; [constructor|].
  apply NoDup_app; auto.
  - clear -Hl'. induction Hl' as [|b l' Hb _ IH]; cbn [map]; constructor; auto.
    rewrite in_map_iff. intros (b' & E & Hin). inversion E; subst. contradiction.
  - intros [a' b']. rewrite in_map_iff, in_prod_iff.
    intros (b'' & E & _) [Hin _]. inversion E; subst. contradiction.
Qed.

Lemma NoDup_pairs (m : nat) : NoDup (pairs m).
Proof.
  unfold pairs. apply NoDup_filter, NoDup_list_prod; apply seq_NoDup.
Qed.

Lemma pair_dists_small (xs ys : list float) (n : nat) :
  (n < 2)%nat -> pair_dists xs ys n = [].
Proof.
  intros H. destruct n as [|[|n]]; [reflexivity | reflexivity | lia].
Qed.

Lemma pair_dists_nonempty (xs ys : list float) (n : nat) :
  (2 <= n)%nat -> pair_dists xs ys n <> [].
Proof.
  intros H E. rewrite pair_dists_pairs in E.
  apply map_eq_nil in E.
  assert (Hin : In (0%nat, 1%nat) (pairs (Nat.min 500 n))) by (apply in_pairs; lia).
  rewrite E in Hin. contradiction.
Qed.

(** ** The order of floats *)

Lemma SFcompare_antisym (a b : spec_float) :
  SFcompare b a = option_map CompOpp (SFcompare a b).
Proof.
  destruct a as [sa|sa| |sa ma ea], b as [sb|sb| |sb mb eb]; cbn;
    try reflexivity;
    try (destruct sa, sb; reflexivity);
    try (destruct sa; reflexivity); try (destruct sb; reflexivity).
  destruct sa, sb; try reflexivity;
    rewrite (Z.compare_antisym ea eb); destruct (ea ?= eb)%Z; cbn [CompOpp];
    try reflexivity;
    change (Pos.compare_cont Eq mb ma) with (Pos.compare_cont (CompOpp Eq) mb ma);
    rewrite <- (Pos.compare_cont_antisym ma mb Eq);
    destruct (Pos.compare_cont Eq ma mb); reflexivity.
Qed.

Lemma float_ltb_irrefl (a : float) : (a <? a)%float = false.
Proof.
  rewrite FloatAxioms.ltb_spec. unfold SFltb.
  pose proof (SFcompare_antisym (Prim2SF a) (Prim2SF a)) as H.
  destruct (SFcompare (Prim2SF a) (Prim2SF a)) as [[| |]|]; try reflexivity.
  discriminate H.
Qed.

Lemma float_ltb_asym (a b : float) : (a <? b)%float = true -> (b <? a)%float = false.
Proof.
  rewrite !FloatAxioms.ltb_spec. unfold SFltb. rewrite (SFcompare_antisym (Prim2SF a) (Prim2SF b)).
  destruct (SFcompare (Prim2SF a) (Prim2SF b)) as [[| |]|]; cbn; congruence.
Qed.

Lemma is_nan_Prim2SF (x : float) :
  is_nan x = match Prim2SF x with S754_nan => true | _ => false end.
Proof.
  unfold is_nan. rewrite FloatAxioms.eqb_spec. unfold SFeqb.
  destruct (Prim2SF x) as [s|s| |s m e]; cbn; try (destruct s; reflexivity);
    try reflexivity.
  destruct s; rewrite Z.compare_refl, Pos.compare_cont_refl; reflexivity.
Qed.

Lemma SFcompare_defined (a b : spec_float) :
  a <> S754_nan -> b <> S754_nan -> SFcompare a b <> None.
Proof.
  destruct a, b; cbn; congruence.
Qed.

(** Among numbers, "not less" is "at least". *)
Lemma float_ltb_false_leb (a b : float) :
  is_nan a = false -> is_nan b = false -> (a <? b)%float = false -> (b <=? a)%float = true.
Proof.
  rewrite !is_nan_Prim2SF, FloatAxioms.ltb_spec, FloatAxioms.leb_spec. unfold SFltb, SFleb.
  rewrite (SFcompare_antisym (Prim2SF a) (Prim2SF b)).
  intros Ha Hb.
  assert (H : SFcompare (Prim2SF a) (Prim2SF b) <> None).
  { apply SFcompare_defined; intros E; rewrite E in *; discriminate. }
  destruct (SFcompare (Prim2SF a) (Prim2SF b)) as [[| |]|]; cbn; congruence.
Qed.

Lemma float_leb_refl (a : float) : is_nan a = false -> (a <=? a)%float = true.
Proof.
  intros Ha. apply float_ltb_false_leb; auto using float_ltb_irrefl.
Qed.

Lemma float_ltb_leb (a b : float) : (a <? b)%float = true -> (a <=? b)%float = true.
Proof.
  rewrite FloatAxioms.ltb_spec, FloatAxioms.leb_spec. unfold SFltb, SFleb.
  destruct (SFcompare (Prim2SF a) (Prim2SF b)) as [[| |]|]; congruence.
Qed.

(** A NaN operand makes the difference and the product NaN. *)
Lemma is_nan_sub_r (a b : float) : is_nan (a - b) = false -> is_nan b = false.
Proof.
  rewrite !is_nan_Prim2SF, FloatAxioms.sub_spec. unfold SF64sub, SFsub.
  destruct (Prim2SF b); try reflexivity.
  destruct (Prim2SF a); intros H; exact H.
Qed.

Lemma is_nan_mul_r (a b : float) : is_nan (a * b) = false -> is_nan b = false.
Proof.
  rewrite !is_nan_Prim2SF, FloatAxioms.mul_spec. unfold SF64mul, SFmul.
  destruct (Prim2SF b); try reflexivity.
  destruct (Prim2SF a); intros H; exact H.
Qed.

Lemma is_finite_not_nan (a : float) : is_finite a = true -> is_nan a = false.
Proof.
  unfold is_finite. destruct (is_nan a); [discriminate | reflexivity].
Qed.

(** [max(a, b)] is one of its arguments, and neither argument exceeds
    it. *)
Lemma py_max_larger (a b : float) :
  (py_max a b = a \/ py_max a b = b) /\
  (py_max a b <? a)%float = false /\ (py_max a b <? b)%float = false /\
  (is_nan a = false -> is_nan b = false ->
   (a <=? py_max a b)%float = true /\ (b <=? py_max a b)%float = true).
Proof.
  unfold py_max. destruct (a <? b)%float eqn:E.
  - split; [now right|]. split; [now apply float_ltb_asym|].
    split; [apply float_ltb_irrefl|]. intros Ha Hb.
    split; [now apply float_ltb_leb | now apply float_leb_refl].
  - split; [now left|]. split; [apply float_ltb_irrefl|]. split; [exact E|].
    intros Ha Hb. split; [now apply float_leb_refl | now apply float_ltb_false_leb].
Qed.

(** ** Float equality is a partial equivalence *)

Lemma SFeqb_true (a b : spec_float) :
  SFeqb a b = true ->
  (a = b /\ SFeqb a a = true) \/
  (exists s1 s2, a = S754_zero s1 /\ b = S754_zero s2).
Proof.
  unfold SFeqb.
  destruct a as [s1| s1| |s1 m1 e1], b as [s2| s2| |s2 m2 e2]; cbn;
    try discriminate; try (destruct s1; discriminate); try (destruct s2; discriminate).
  - intros _. right. now exists s1, s2.
  - destruct s1, s2; try discriminate; intros _; left; split; reflexivity.
  - destruct s1, s2; try discriminate.
    + destruct (Z.compare_spec e1 e2) as [E|E|E]; try discriminate. subst e2.
      rewrite Z.compare_refl.
      change (Pos.compare_cont Eq m1 m2) with (Pos.compare m1 m2).
      change (Pos.compare_cont Eq m1 m1) with (Pos.compare m1 m1).
      destruct (Pos.compare_spec m1 m2) as [E|E|E]; try discriminate. subst m2.
      intros _. left. rewrite Pos.compare_refl. split; reflexivity.
    + destruct (Z.compare_spec e1 e2) as [E|E|E]; try discriminate. subst e2.
      rewrite Z.compare_refl.
      change (Pos.compare_cont Eq m1 m2) with (Pos.compare m1 m2).
      change (Pos.compare_cont Eq m1 m1) with (Pos.compare m1 m1).
      destruct (Pos.compare_spec m1 m2) as [E|E|E]; try discriminate. subst m2.
      intros _. left. rewrite Pos.compare_refl. split; reflexivity.
Qed.

Lemma SFeqb_sym (a b : spec_float) : SFeqb a b = true -> SFeqb b a = true.
Proof.
  intros H. destruct (SFeqb_true a b H) as [[-> Hr] | (s1 & s2 & -> & ->)];
    [exact Hr | reflexivity].
Qed.

Lemma SFeqb_trans (a b c : spec_float) :
  SFeqb a b = true -> SFeqb b c = true -> SFeqb a c = true.
Proof.
  intros H1 H2.
  destruct (SFeqb_true a b H1) as [[-> _] | (s1 & s2 & -> & ->)]; [exact H2|].
  destruct (SFeqb_true _ c H2) as [[<- _] | (s3 & s4 & _ & ->)]; reflexivity.
Qed.

Lemma float_eqb_sym (a b : float) : (a =? b)%float = true -> (b =? a)%float = true.
Proof. rewrite !FloatAxioms.eqb_spec. apply SFeqb_sym. Qed.

Lemma float_eqb_trans (a b c : float) :
  (a =? b)%float = true -> (b =? c)%float = true -> (a =? c)%float = true.
Proof. rewrite !FloatAxioms.eqb_spec. apply SFeqb_trans. Qed.

Lemma float_eqb_same_number (x y : float) : (x =? y)%float = true <-> same_number x y.
Proof.
  unfold same_number. split.
  - intros H. pose proof H as H'. rewrite FloatAxioms.eqb_spec in H'.
    destruct (SFeqb_true _ _ H') as [[E Hr] | (s1 & s2 & E1 & E2)].
    + left. apply Prim2SF_inj in E. subst y. split; [reflexivity|].
      unfold is_nan. now rewrite H.
    + right. now exists s1, s2.
  - intros [[-> Hn] | (s1 & s2 & E1 & E2)].
    + unfold is_nan in Hn. now destruct (y =? y)%float.
    + rewrite FloatAxioms.eqb_spec, E1, E2. reflexivity.
Qed.

Lemma key_eqb_same_number (a b : Key) :
  key_eqb a b = true <-> same_number (fst a) (fst b) /\ same_number (snd a) (snd b).
Proof.
  unfold key_eqb. now rewrite andb_true_iff, !float_eqb_same_number.
Qed.

Lemma key_eqb_sym (a b : Key) : key_eqb a b = true -> key_eqb b a = true.
Proof.
  unfold key_eqb. rewrite !andb_true_iff. intros [H1 H2].
  split; now apply float_eqb_sym.
Qed.

Lemma key_eqb_trans (a b c : Key) :
  key_eqb a b = true -> key_eqb b c = true -> key_eqb a c = true.
Proof.
  unfold key_eqb. rewrite !andb_true_iff. intros [H1 H2] [H3 H4].
  split; eapply float_eqb_trans; eassumption.
Qed.

Lemma key_eqb_comm (a b : Key) : key_eqb a b = key_eqb b a.
Proof.
  destruct (key_eqb a b) eqn:H1, (key_eqb b a) eqn:H2; auto.
  - apply key_eqb_sym in H1. congruence.
  - apply key_eqb_sym in H2. congruence.
Qed.

(** Keys that compare equal compare alike with every other key. *)
Lemma key_eqb_class (a b x : Key) : key_eqb a b = true -> key_eqb a x = key_eqb b x.
Proof.
  intros H. destruct (key_eqb a x) eqn:H1, (key_eqb b x) eqn:H2; auto.
  - rewrite <- H2. symmetry. apply (key_eqb_trans b a x); auto using key_eqb_sym.
  - rewrite <- H1. apply (key_eqb_trans a b x); auto.
Qed.

(** ** Occupancy *)

Lemma occupancy_cons (k x : Key) (l : list Key) :
  occupancy k (x :: l) = ((if key_eqb k x then 1 else 0) + occupancy k l)%nat.
Proof. unfold occupancy. cbn [filter]. destruct (key_eqb k x); reflexivity. Qed.

Lemma occupancy_app (k : Key) (l l' : list Key) :
  occupancy k (l ++ l') = (occupancy k l + occupancy k l')%nat.
Proof. unfold occupancy. now rewrite filter_app, length_app. Qed.

Lemma occupancy_class (a b : Key) (l : list Key) :
  key_eqb a b = true -> occupancy a l = occupancy b l.
Proof.
  intros H. unfold occupancy. f_equal. apply filter_ext. intros x.
  now apply key_eqb_class.
Qed.

Lemma occupancy_irreflexive (k : Key) (l : list Key) :
  key_eqb k k = false -> occupancy k l = 0%nat.
Proof.
  intros H. induction l as [|x l IH]; [reflexivity|].
  rewrite occupancy_cons, IH.
  destruct (key_eqb k x) eqn:E; [|reflexivity].
  rewrite (key_eqb_trans k x k E (key_eqb_sym _ _ E)) in H. discriminate.
Qed.

Lemma occupancy_perm (k : Key) (l l' : list Key) :
  Permutation l l' -> occupancy k l = occupancy k l'.
Proof.
  induction 1; rewrite ?occupancy_cons; lia.
Qed.

(** ** Adding the nodes one at a time *)

Lemma incremental_overlaps_perm (l l' : list Key) :
  Permutation l l' -> incremental_overlaps l = incremental_overlaps l'.
Proof.
  induction 1 as [|x l l' Hp IH|x y l|l l' l'' _ IH1 _ IH2]; cbn [incremental_overlaps].
  - reflexivity.
  - now rewrite IH, (occupancy_perm x l l' Hp).
  - rewrite !occupancy_cons.
    destruct (key_eqb y x) eqn:E.
    + rewrite (key_eqb_sym _ _ E). rewrite (occupancy_class y x l E).
      destruct (occupancy x l) as [|[|c]]; cbn; lia.
    + rewrite (key_eqb_comm x y), E. cbn. lia.
  - congruence.
Qed.

(** ** The Counter *)

Lemma lookup_counter_incr (k x : Key) (c : list (Key * nat)) :
  lookup k (counter_incr x c) = (lookup k c + (if key_eqb x k then 1 else 0))%nat.
Proof.
  induction c as [|[k' n] c IH]; cbn [counter_incr lookup].
  - destruct (key_eqb x k); reflexivity.
  - destruct (key_eqb k' x) eqn:E1; cbn [lookup].
    + destruct (key_eqb k' k) eqn:E2.
      * rewrite <- (key_eqb_class k' x k E1), E2. lia.
      * rewrite <- (key_eqb_class k' x k E1), E2. lia.
    + destruct (key_eqb k' k) eqn:E2; [|exact IH].
      destruct (key_eqb x k) eqn:E3; [|lia].
      rewrite (key_eqb_trans k' k x E2 (key_eqb_sym _ _ E3)) in E1. discriminate.
Qed.

Lemma multi_counter_incr (x : Key) (c : list (Key * nat)) :
  multi (counter_incr x c) = (multi c + (if (lookup x c =? 1)%nat then 1 else 0))%nat.
Proof.
  unfold multi. induction c as [|[k' n] c IH]; cbn [counter_incr lookup filter snd].
  - reflexivity.
  - destruct (key_eqb k' x) eqn:E1; cbn [filter snd].
    + destruct n as [|[|n]]; cbn; lia.
    + destruct (1 <? n)%nat; cbn [List.length]; rewrite IH; lia.
Qed.

Lemma Counter_snoc (l : list Key) (x : Key) :
  Counter (l ++ [x]) = counter_incr x (Counter l).
Proof. unfold Counter. now rewrite fold_left_app. Qed.

Lemma lookup_Counter (k : Key) (l : list Key) : lookup k (Counter l) = occupancy k l.
Proof.
  induction l as [|x l IH] using rev_ind; [reflexivity|].
  rewrite Counter_snoc, lookup_counter_incr, IH, occupancy_app, occupancy_cons.
  rewrite (key_eqb_comm x k). unfold occupancy at 3. cbn. lia.
Qed.

Lemma overlaps_of_incremental (l : list Key) : overlaps_of l = incremental_overlaps l.
Proof.
  induction l as [|x l IH] using rev_ind; [reflexivity|].
  rewrite (incremental_overlaps_perm (l ++ [x]) (x :: l))
    by (symmetry; apply Permutation_cons_append).
  cbn [incremental_overlaps]. rewrite <- IH.
  unfold overlaps_of. rewrite Counter_snoc.
  fold (multi (counter_incr x (Counter l))). fold (multi (Counter l)).
  now rewrite multi_counter_incr, lookup_Counter.
Qed.

(** ** Distinct coordinates *)

Lemma length_filter_split {A} (P Q : A -> bool) (l : list A) :
  List.length (filter P l) =
  (List.length (filter (fun a => P a && Q a) l)
   + List.length (filter (fun a => P a && negb (Q a)) l))%nat.
Proof.
  induction l as [|a l IH]; [reflexivity|]. cbn [filter].
  destruct (P a), (Q a); cbn [andb negb List.length]; lia.
Qed.

Lemma filter_filter {A} (P Q : A -> bool) (l : list A) :
  filter P (filter Q l) = filter (fun a => P a && Q a) l.
Proof.
  induction l as [|a l IH]; [reflexivity|]. cbn [filter].
  destruct (Q a); cbn [filter]; destruct (P a); cbn [andb]; now rewrite IH.
Qed.

(** A coordinate occupied at least once has exactly one representative. *)
Lemma representatives (k : Key) (l : list Key) :
  key_eqb k k = true ->
  List.length (filter (key_eqb k) (distinct l)) =
  if (occupancy k l =? 0)%nat then 0%nat else 1%nat.
Proof.
  intros Hk. induction l as [|x l IH]; [reflexivity|].
  cbn [distinct filter]. rewrite occupancy_cons, filter_filter.
  destruct (key_eqb k x) eqn:E; cbn [List.length].
  - rewrite (filter_ext_in _ (fun _ => false)), filter_false; [reflexivity|].
    intros a _. destruct (key_eqb k a) eqn:E1; [|reflexivity].
    rewrite <- (key_eqb_class k x a E), E1. reflexivity.
  - rewrite (filter_ext_in _ (key_eqb k)); [exact IH|].
    intros a _. destruct (key_eqb k a) eqn:E1; [|reflexivity].
    destruct (key_eqb x a) eqn:E2; [|reflexivity].
    rewrite (key_eqb_trans k a x E1 (key_eqb_sym _ _ E2)) in E. discriminate.
Qed.

Lemma multi_occupied_incremental (l : list Key) :
  multi_occupied l = incremental_overlaps l.
Proof.
  induction l as [|k l IH]; [reflexivity|].
  cbn [incremental_overlaps]. rewrite <- IH. clear IH.
  unfold multi_occupied. cbn [distinct filter].
  rewrite filter_filter.
  rewrite (length_filter_split (fun a => (1 <? occupancy a l)%nat) (key_eqb k) (distinct l)).
  rewrite (filter_ext_in
             (fun a => (1 <? occupancy a (k :: l))%nat && negb (key_eqb k a))
             (fun a => (1 <? occupancy a l)%nat && negb (key_eqb k a))).
  2:{ intros a _. rewrite occupancy_cons, (key_eqb_comm a k).
      destruct (key_eqb k a); [now rewrite !andb_false_r | reflexivity]. }
  destruct (key_eqb k k) eqn:Hk.
  - rewrite (filter_ext_in
               (fun a => (1 <? occupancy a l)%nat && key_eqb k a)
               (fun a => (1 <? occupancy k l)%nat && key_eqb k a)).
    2:{ intros a _. destruct (key_eqb k a) eqn:E; [|now rewrite !andb_false_r].
        now rewrite (occupancy_class k a l E). }
    rewrite occupancy_cons, Hk.
    destruct (1 <? occupancy k l)%nat eqn:E1.
    + rewrite (filter_ext (fun a => true && key_eqb k a) (key_eqb k) (fun a => eq_refl)).
      rewrite (representatives k l Hk).
      apply Nat.ltb_lt in E1.
      destruct (occupancy k l) as [|[|c]]; try lia. cbn. lia.
    + rewrite filter_false. apply Nat.ltb_ge in E1.
      destruct (occupancy k l) as [|[|c]]; try lia; cbn; lia.
  - rewrite (filter_ext_in
               (fun a => (1 <? occupancy a l)%nat && key_eqb k a) (fun _ => false)),
      filter_false.
    2:{ intros a _. destruct (key_eqb k a) eqn:E; [|now rewrite andb_false_r].
        rewrite (key_eqb_trans k a k E (key_eqb_sym _ _ E)) in Hk. discriminate. }
    rewrite occupancy_cons, Hk, (occupancy_irreflexive k l Hk). cbn. lia.
Qed.

Lemma rounded_keys_nodes (nodes : list Node) :
  rounded_keys (map node_x nodes) (map node_y nodes) = map rounded_key nodes.
Proof.
  unfold rounded_keys. induction nodes as [|n nodes IH]; [reflexivity|].
  cbn [map combine fst snd]. now rewrite IH.
Qed.

(** ** Runs on degenerate datasets *)

Lemma int_max_zeros (n : nat) : int_max (repeat 0 (S n)) = inr 0.
Proof.
  cbn [repeat int_max]. f_equal.
  induction n as [|n IH]; cbn [repeat fold_left]; auto.
Qed.

Lemma sizes_of_zeros (n : nat) : sizes_of (repeat 0 n) 0 = repeat nan n.
Proof.
  unfold sizes_of. induction n as [|n IH]; cbn [repeat map]; [reflexivity|].
  now rewrite IH.
Qed.

(** Wrap-around positions and the endpoints that touch them. *)
Lemma normalize_index_position (n : nat) (i : Z) :
  subscriptable n i ->
  normalize_index n i = inr (position n i) /\ (position n i < n)%nat /\
  forall q, (q < n)%nat -> Nat.eqb q (position n i) = touches n q i.
Proof.
  unfold subscriptable, normalize_index, position, touches. intros H.
  destruct (Z.ltb_spec i 0) as [Hneg|Hpos].
  - replace (0 <=? i) with false by (symmetry; apply Z.leb_gt; lia).
    replace (- Z.of_nat n <=? i) with true by (symmetry; apply Z.leb_le; lia).
    cbn [andb]. split; [reflexivity|]. split; [lia|]. intros q Hq.
    destruct (Nat.eqb_spec q (Z.to_nat (i + Z.of_nat n)));
      destruct (Z.eqb_spec i (Z.of_nat q));
      destruct (Z.eqb_spec i (Z.of_nat q - Z.of_nat n)); cbn [orb]; lia.
  - replace (0 <=? i) with true by (symmetry; apply Z.leb_le; lia).
    replace (i <? Z.of_nat n) with true by (symmetry; apply Z.ltb_lt; lia).
    cbn [andb]. split; [reflexivity|]. split; [lia|]. intros q Hq.
    destruct (Nat.eqb_spec q (Z.to_nat i));
      destruct (Z.eqb_spec i (Z.of_nat q));
      destruct (Z.eqb_spec i (Z.of_nat q - Z.of_nat n)); cbn [orb]; lia.
Qed.

Lemma incr_item_position (a : list Z) (i : Z) :
  subscriptable (List.length a) i ->
  incr_item a i =
  inr (set_nth (position (List.length a) i)
               (nth (position (List.length a) i) a 0 + 1) a).
Proof.
  intros H. unfold incr_item.
  destruct (normalize_index_position _ _ H) as (-> & _). reflexivity.
Qed.

Lemma endpoints_on_cons (n i : nat) (e : Edge) (edges : list Edge) :
  Z.of_nat (endpoints_on n i (e :: edges)) =
  (if touches n i (e_src e) then 1 else 0) + (if touches n i (e_tgt e) then 1 else 0)
  + Z.of_nat (endpoints_on n i edges).
Proof.
  unfold endpoints_on; cbn [filter].
  destruct (touches n i (e_src e)), (touches n i (e_tgt e)); cbn [List.length]; lia.
Qed.

Lemma degree_loop_wrapped (n : nat) (edges : list Edge) :
  Forall (endpoints_ok n) edges ->
  forall d0, List.length d0 = n ->
  exists degrees,
    degree_loop edges d0 = inr degrees /\
    List.length degrees = n /\
    (forall i, (i < n)%nat ->
       nth i degrees 0 = nth i d0 0 + Z.of_nat (endpoints_on n i edges)) /\
    total_degree degrees = total_degree d0 + 2 * Z.of_nat (List.length edges).
Proof.
  induction 1 as [|e edges [Hs Ht] _ IH]; intros d0 Hlen.
  - exists d0; cbn [degree_loop]; repeat split; auto.
    + intros; unfold endpoints_on; cbn; lia.
    + cbn; lia.
  - cbn [degree_loop].
    destruct (normalize_index_position n _ Hs) as (_ & Ps & Qs).
    destruct (normalize_index_position n _ Ht) as (_ & Pt & Qt).
    rewrite incr_item_position by (rewrite Hlen; exact Hs). cbn [res_bind].
    rewrite Hlen.
    set (d1 := set_nth (position n (e_src e)) _ d0).
    assert (L1 : List.length d1 = n) by (unfold d1; now rewrite set_nth_length).
    rewrite incr_item_position by (rewrite L1; exact Ht). cbn [res_bind].
    rewrite L1.
    set (d2 := set_nth (position n (e_tgt e)) _ d1).
    assert (L2 : List.length d2 = n) by (unfold d2; now rewrite set_nth_length).
    destruct (IH d2 L2) as (degrees & Hrun & Hl & Hnth & Hsum).
    exists degrees; repeat split; auto.
    + intros i Hi. rewrite (Hnth i Hi), endpoints_on_cons.
      unfold d2. rewrite nth_set_nth by (rewrite L1; exact Pt).
      rewrite (Qt i Hi).
      assert (E1 : nth i d1 0 = nth i d0 0 + (if touches n i (e_src e) then 1 else 0)).
      { unfold d1. rewrite nth_set_nth by (rewrite Hlen; exact Ps).
        rewrite (Qs i Hi). destruct (touches n i (e_src e)) eqn:E; [|lia].
        rewrite <- (Qs i Hi) in E. apply Nat.eqb_eq in E. now subst i. }
      destruct (touches n i (e_tgt e)) eqn:E; [|lia].
      rewrite <- (Qt i Hi) in E. apply Nat.eqb_eq in E. rewrite <- E. lia.
    + rewrite Hsum. unfold d2.
      rewrite total_degree_set_nth by (rewrite L1; exact Pt).
      unfold d1. rewrite total_degree_set_nth by (rewrite Hlen; exact Ps).
      rewrite length_cons. lia.
Qed.

Lemma compute_degrees_wrapped (n : nat) (edges : list Edge) (degrees : list Z) :
  compute_degrees n edges = inr degrees ->
  List.length degrees = n /\
  (forall i, (i < n)%nat -> nth i degrees 0 = Z.of_nat (endpoints_on n i edges)) /\
  total_degree degrees = 2 * Z.of_nat (List.length edges).
Proof.
  intros H. pose proof H as H'. unfold compute_degrees in H'.
  apply (degree_loop_inr n) in H'; [|apply repeat_length].
  destruct (degree_loop_wrapped n edges H' (repeat 0 n) (repeat_length 0 n))
    as (d & Hd & Hl & Hnth & Hsum).
  unfold compute_degrees in H. rewrite Hd in H. inversion H; subst d.
  split; [exact Hl|]. split.
  - intros i Hi. rewrite (Hnth i Hi), nth_repeat_zero. lia.
  - rewrite Hsum, total_degree_repeat_zero. lia.
Qed.

(** Which exception a rejected subscript raises. *)
Lemma subscript_error_cases (n : nat) (i : Z) :
  (fits_long i -> subscript_error n i = IndexError i n) /\
  (2 ^ 63 <= i < 2 ^ 64 -> subscript_error n i = OverflowError) /\
  (i < - 2 ^ 63 \/ 2 ^ 64 <= i -> subscript_error n i = IndexErrorNotInteger).
Proof.
  unfold subscript_error, fits_long.
  destruct (Z.leb_spec (- 2 ^ 63) i), (Z.ltb_spec i (2 ^ 63)),
    (Z.leb_spec (2 ^ 63) i), (Z.ltb_spec i (2 ^ 64)); cbn [andb];
    repeat split; intros; try reflexivity; lia.
Qed.

(** An endpoint the subscript rejects stops the run at the degree loop. *)
Lemma index_error_cases (K : Kernels) (secret : HashSecret) (data : Dataset) :
  ds_nodes data <> [] ->
  Exists (fun e => ~ endpoints_ok (List.length (ds_nodes data)) e) (ds_edges data) ->
  exists i before e after,
    outcome (execute K secret data)
      = inl (subscript_error (List.length (ds_nodes data)) i) /\
    ~ subscriptable (List.length (ds_nodes data)) i /\
    ds_edges data = before ++ e :: after /\
    Forall (endpoints_ok (List.length (ds_nodes data))) before /\
    (i = e_src e \/ (subscriptable (List.length (ds_nodes data)) (e_src e) /\ i = e_tgt e)) /\
    console (execute K secret data) = head_lines K data /\
    written (execute K secret data) = None.
Proof.
  intros Hne Hex.
  destruct (compute_degrees_rejects _ _ Hex)
    as (i & before & e & after & Hc & Hbad & Hsplit & Hok & Hi).
  exists i, before, e, after. unfold outcome, console, written.
  destruct (execute_cases K secret data)
    as [[Hn _] | [(_ & x & Hx & ->) | (_ & d & m & Hd & _)]].
  - contradiction.
  - rewrite Hc in Hx. inversion Hx; subst x. repeat split; assumption.
  - congruence.
Qed.

(** With every endpoint accepted, no subscript of the run raises. *)
Lemma no_subscript_error (K : Kernels) (secret : HashSecret) (data : Dataset) (x : Exn) :
  Forall (endpoints_ok (List.length (ds_nodes data))) (ds_edges data) ->
  outcome (execute K secret data) = inl x ->
  x <> OverflowError /\ x <> IndexErrorNotInteger /\ forall i size, x <> IndexError i size.
Proof.
  intros Hok. set (n := List.length (ds_nodes data)) in *.
  destruct (degree_loop_total n _ Hok (repeat 0 n) (repeat_length 0 n)) as [d Hd].
  assert (Lx : List.length (map node_x (ds_nodes data)) = n) by apply length_map.
  assert (Ly : List.length (map node_y (ds_nodes data)) = n) by apply length_map.
  destruct (mapM_total _ _ (edge_len_total _ _ n Lx Ly) _ Hok) as [lens Hl].
  unfold outcome.
  destruct (execute_cases K secret data)
    as [[_ ->] | [(_ & y & Hy & _) | (_ & d' & m & _ & _ & Hc)]].
  - cbn [snd]. intros E; inversion E. repeat split; intros; discriminate.
  - unfold compute_degrees in Hy. fold n in Hy. congruence.
  - cbv zeta in Hc.
    destruct Hc as [[_ ->] | [_ [(y & Hy & _) | [[_ ->] | (l' & _ & _ & Hc)]]]].
    + cbn [snd]. intros E; inversion E. repeat split; intros; discriminate.
    + unfold edge_lens in Hy. congruence.
    + cbn [snd]. intros E; inversion E. repeat split; intros; discriminate.
    + destruct Hc as [(y & Hy & ->) | (img & _ & ->)]; cbn [snd]; [|discriminate].
      intros E; inversion E; subst y.
      apply figure_inl in Hy.
      destruct Hy as [Hy | (img & _ & [[_ ->] | (_ & _ & ->)])];
        [|repeat split; intros; discriminate ..].
      apply render_inl in Hy; [|exact Hok]. subst x.
      repeat split; intros; discriminate.
Qed.

(** C4 (as amended). With no nodes, the run prints the node count and
    the edge count, then stops with NumPy's zero-size-array error for the
    minimum; no range, deviation or later line is printed and no image is
    written. *)
Theorem empty_nodes_run (K : Kernels) (secret : HashSecret) (data : Dataset) :
  ds_nodes data = [] ->
  let r := execute K secret data in
  outcome r = inl (ZeroSizeReduction Minimum) /\
  console r = [LNodes 0; LEdges (List.length (ds_edges data))] /\
  written r = None /\
  (forall l, In l (console r) ->
     forall a b, l <> LXRange a b /\ l <> LYRange a b /\ l <> LStd a b).
Proof.
  intros Hn r. unfold r, outcome, console, written.
  destruct (execute_cases K secret data) as [[_ ->] | [(Hne & _) | (Hne & _)]];
    try contradiction.
  cbn [fst snd world stdout png]. repeat split; try discriminate.
  all: destruct H as [<- | [<- | []]]; discriminate.
Qed.

Lemma empty_nodes_run_sample :
  ds_nodes empty_data = [] /\
  outcome (execute ref_kernels secret_seed0 empty_data) = inl (ZeroSizeReduction Minimum) /\
  written (execute ref_kernels secret_seed0 empty_data) = None.
Proof.
  split; [reflexivity|].
  destruct (empty_nodes_run ref_kernels secret_seed0 empty_data eq_refl)
    as (Ho & _ & Hw & _).
  split; [exact Ho | exact Hw].
Defined.

(** C4, as stated, fails: on the empty dataset two report lines are on the
    console when the run stops. *)
Lemma empty_nodes_prints_counts :
  outcome (execute ref_kernels secret_seed0 empty_data) = inl (ZeroSizeReduction Minimum) /\
  console (execute ref_kernels secret_seed0 empty_data) = [LNodes 0; LEdges 0] /\
  console (execute ref_kernels secret_seed0 empty_data) <> [].
Proof. repeat split. discriminate. Qed.

(** C2 (as amended). In a dataset with at least one node, an edge endpoint
    outside [-N, N) stops the run in the degree loop, at the first such
    endpoint, after the first seven report lines and with no image
    written.  The exception is an [IndexError] carrying that endpoint and
    N when the endpoint fits a C long, an [OverflowError] when it lies in
    [2^63, 2^64), and an [IndexError] naming neither beyond.  When every
    endpoint lies in [-N, N) no subscript raises: a negative index [i]
    addresses node [i + N], in the coordinate arrays and in the degree
    count alike. *)
Theorem index_error_outside_wraparound (K : Kernels) (secret : HashSecret) (data : Dataset) :
  ds_nodes data <> [] ->
  let n := List.length (ds_nodes data) in
  let xs := map node_x (ds_nodes data) in
  let r := execute K secret data in
  (Exists (fun e => ~ endpoints_ok n e) (ds_edges data) ->
   exists i before e after x,
     outcome r = inl x /\ ~ subscriptable n i /\
     ds_edges data = before ++ e :: after /\ Forall (endpoints_ok n) before /\
     (i = e_src e \/ (subscriptable n (e_src e) /\ i = e_tgt e)) /\
     (- 2 ^ 63 <= i < 2 ^ 63 -> x = IndexError i n) /\
     (2 ^ 63 <= i < 2 ^ 64 -> x = OverflowError) /\
     (i < - 2 ^ 63 \/ 2 ^ 64 <= i -> x = IndexErrorNotInteger) /\
     console r = head_lines K data /\ written r = None)
  /\
  (Forall (endpoints_ok n) (ds_edges data) ->
   (forall x, outcome r = inl x ->
      x <> OverflowError /\ x <> IndexErrorNotInteger /\
      forall i size, x <> IndexError i size) /\
   exists degrees,
     compute_degrees n (ds_edges data) = inr degrees /\
     forall j, (j < n)%nat ->
       nth j degrees 0 = Z.of_nat (endpoints_on n j (ds_edges data)))
  /\
  (forall i, - Z.of_nat n <= i < 0 ->
     getitem nan xs i = inr (nth (Z.to_nat (i + Z.of_nat n)) xs nan) /\
     forall j, (j < n)%nat -> (touches n j i = true <-> Z.of_nat j = i + Z.of_nat n)).
Proof.
  intros Hne n xs r. split; [|split].
  - intros Hex.
    destruct (index_error_cases K secret data Hne Hex)
      as (i & before & e & after & Ho & Hbad & Hsplit & Hok & Hi & Hc & Hw).
    fold n in Ho, Hbad, Hok, Hi.
    destruct (subscript_error_cases n i) as (E1 & E2 & E3).
    exists i, before, e, after, (subscript_error n i).
    repeat split; auto.
  - intros Hok. split.
    + intros x Hx. now apply (no_subscript_error K secret data x Hok).
    + destruct (degree_loop_total n _ Hok (repeat 0 n) (repeat_length 0 n)) as [d Hd].
      exists d. split; [exact Hd|].
      now destruct (compute_degrees_wrapped n _ d Hd) as (_ & Hn & _).
  - intros i Hi. split.
    + unfold getitem.
      replace (List.length xs) with n by (unfold xs; now rewrite length_map).
      unfold normalize_index.
      replace (0 <=? i) with false by (symmetry; apply Z.leb_gt; lia).
      replace (- Z.of_nat n <=? i) with true by (symmetry; apply Z.leb_le; lia).
      replace (i <? 0) with true by (symmetry; apply Z.ltb_lt; lia).
      reflexivity.
    + intros j Hj. unfold touches. rewrite orb_true_iff, !Z.eqb_eq. lia.
Qed.

(** C2, as stated, fails: the target index -1 lies outside [0, N) and the
    run completes, counting the endpoint for the last node. *)
Lemma negative_index_is_accepted :
  Exists (fun e => ~ valid_index 2 (e_src e) \/ ~ valid_index 2 (e_tgt e))
         (ds_edges negative_index_data) /\
  outcome (execute ref_kernels secret_seed0 negative_index_data) = inr tt /\
  compute_degrees 2 (ds_edges negative_index_data) = inr [1; 1].
Proof.
  split; [|split; vm_compute; reflexivity].
  constructor. right. unfold valid_index. cbn. lia.
Qed.

Lemma index_error_past_end :
  ds_nodes past_end_data <> [] /\
  outcome (execute ref_kernels secret_seed0 past_end_data) = inl (IndexError 1 1) /\
  console (execute ref_kernels secret_seed0 past_end_data)
    = head_lines ref_kernels past_end_data /\
  written (execute ref_kernels secret_seed0 past_end_data) = None /\
  getitem nan (map node_x (ds_nodes negative_index_data)) (-1) = inr 3%float.
Proof.
  split; [discriminate|].
  destruct (index_error_outside_wraparound ref_kernels secret_seed0 past_end_data)
    as (H & _); [discriminate|].
  destruct H as (i & before & e & after & x & Ho & Hbad & Hsplit & _ & Hi & E1 & _ & _ & Hc & Hw).
  { constructor. unfold endpoints_ok, subscriptable. cbn. lia. }
  assert (Ei : i = 1).
  { destruct before as [|b before]; cbn in Hsplit.
    - inversion Hsplit; subst e. cbn in Hi.
      destruct Hi as [-> | [_ ->]]; [|reflexivity].
      exfalso. apply Hbad. unfold subscriptable. cbn. lia.
    - destruct before; discriminate Hsplit. }
  subst i. rewrite Ho, (E1 ltac:(lia)).
  split; [reflexivity|]. split; [exact Hc|]. split; [exact Hw|].
  destruct (index_error_outside_wraparound ref_kernels secret_seed0 negative_index_data)
    as (_ & _ & H); [discriminate|].
  destruct (H (-1)) as [Hg _]; [cbn; lia|]. exact Hg.
Defined.

(** The three exceptions of a rejected subscript, on two nodes: the index
    2 is out of bounds, 2^63 overflows a C long, 2^64 is no index. *)
Example rejected_subscripts :
  outcome (execute ref_kernels secret_seed0 (endpoint_data 2)) = inl (IndexError 2 2) /\
  outcome (execute ref_kernels secret_seed0 (endpoint_data (2 ^ 63))) = inl OverflowError /\
  outcome (execute ref_kernels secret_seed0 (endpoint_data (2 ^ 64)))
    = inl IndexErrorNotInteger /\
  outcome (execute ref_kernels secret_seed0 (endpoint_data (- 2 ^ 63 - 1)))
    = inl IndexErrorNotInteger /\
  outcome (execute ref_kernels secret_seed0 (endpoint_data (-2))) = inr tt.
Proof. repeat split; vm_compute; reflexivity. Qed.

(** C3 (as amended). With at least one node and no edge, the run never
    reaches the node sizes: it stops with the zero-size-array error of a
    minimum, at the pairwise-distance line when there is one node and at
    the edge-length line when there are more, and writes no image.  The
    size formula has no guard of its own: on all-zero degrees with maximum
    degree 0 it gives NaN for every node. *)
Theorem no_edges_run_stops_at_minimum (K : Kernels) (secret : HashSecret) (data : Dataset) :
  ds_nodes data <> [] -> ds_edges data = [] ->
  let n := List.length (ds_nodes data) in
  let r := execute K secret data in
  let pre := head_lines K data ++ mid_lines data (repeat 0 n) 0 in
  outcome r = inl (ZeroSizeReduction Minimum) /\
  written r = None /\
  (n = 1%nat -> console r = pre) /\
  ((2 <= n)%nat -> console r = pre ++ [pairwise_line K data]) /\
  sizes_of (repeat 0 n) 0 = repeat nan n.
Proof.
  intros Hne He n r pre.
  assert (Hd : compute_degrees n (ds_edges data) = inr (repeat 0 n)) by now rewrite He.
  assert (Hm : int_max (repeat 0 n) = inr 0).
  { subst n. destruct (ds_nodes data); [congruence | apply int_max_zeros]. }
  assert (Hl : edge_lens (map node_x (ds_nodes data)) (map node_y (ds_nodes data))
                         (ds_edges data) = inr []) by now rewrite He.
  unfold r, outcome, written, console.
  destruct (execute_cases K secret data)
    as [[Hn _] | [(_ & x & Hx & _) | (_ & d' & m & Hd' & Hm' & Hc)]].
  - contradiction.
  - fold n in Hx. congruence.
  - fold n in Hd'. rewrite Hd in Hd'. inversion Hd'; subst d'.
    rewrite Hm in Hm'. inversion Hm'; subst m.
    cbv zeta in Hc. fold n in Hc.
    destruct Hc as [[Hp ->] | [Hp [(x & Hx & _) | [[_ ->] | (l' & Hl' & Hl'' & _)]]]];
      cbn [fst snd world stdout png].
    + split; [reflexivity|]. split; [reflexivity|]. split; [reflexivity|].
      split; [|apply sizes_of_zeros].
      intros H2. exfalso. exact (pair_dists_nonempty _ _ n H2 Hp).
    + congruence.
    + split; [reflexivity|]. split; [reflexivity|]. split; [|split].
      * intros H1. exfalso. apply Hp. apply pair_dists_small. lia.
      * intros _. reflexivity.
      * apply sizes_of_zeros.
    + rewrite Hl in Hl'. inversion Hl'; subst l'. congruence.
Qed.

Lemma no_edges_two_nodes :
  ds_nodes no_edges_data <> [] /\ ds_edges no_edges_data = [] /\
  outcome (execute ref_kernels secret_seed0 no_edges_data) = inl (ZeroSizeReduction Minimum) /\
  written (execute ref_kernels secret_seed0 no_edges_data) = None.
Proof.
  split; [discriminate|]. split; [reflexivity|].
  destruct (no_edges_run_stops_at_minimum ref_kernels secret_seed0 no_edges_data)
    as (Ho & Hw & _); [discriminate | reflexivity |].
  split; [exact Ho | exact Hw].
Defined.

(** C3, as stated, fails: with two nodes and no edge nothing is rendered;
    the run raises at the edge-length line. *)
Lemma no_edges_run_raises :
  (0 < List.length (ds_nodes no_edges_data))%nat /\ ds_edges no_edges_data = [] /\
  execute ref_kernels secret_seed0 no_edges_data =
  (world [LNodes 2; LEdges 0; LXRange 0 3; LYRange 0 4; LStd 1.5 2;
          LAnyNaN false; LAnyInf false; LMaxDegree 0; LIsolated 2 0; LOverlaps 0;
          LPairwise 5 5 5] None,
   inl (ZeroSizeReduction Minimum)).
Proof. split; [cbn; lia|]. split; [reflexivity|]. vm_compute. reflexivity. Qed.

(** C10. A dataset with fewer than two nodes has an empty pairwise sample,
    whose minimum raises; the run fails on every such dataset and writes
    no image.  With exactly one node and endpoints the subscript accepts,
    the failure is that zero-size minimum, after the overlap line. *)
Theorem fewer_than_two_nodes_fails (K : Kernels) (secret : HashSecret) (data : Dataset) :
  (List.length (ds_nodes data) < 2)%nat ->
  let n := List.length (ds_nodes data) in
  let xs := map node_x (ds_nodes data) in
  let ys := map node_y (ds_nodes data) in
  let r := execute K secret data in
  pair_dists xs ys n = [] /\
  np_min K (pair_dists xs ys n) = inl (ZeroSizeReduction Minimum) /\
  (exists x, outcome r = inl x) /\
  written r = None /\
  (n = 1%nat -> Forall (endpoints_ok 1) (ds_edges data) ->
   outcome r = inl (ZeroSizeReduction Minimum) /\
   exists degrees m, compute_degrees 1 (ds_edges data) = inr degrees /\
                     console r = head_lines K data ++ mid_lines data degrees m).
Proof.
  intros Hlt n xs ys r.
  assert (Hp : pair_dists xs ys n = []) by now apply pair_dists_small.
  split; [exact Hp|]. split; [now rewrite Hp|].
  unfold r, outcome, written, console.
  destruct (execute_cases K secret data)
    as [[Hn ->] | [(_ & x & Hx & ->) | (_ & d & m & Hd & Hm & Hc)]];
    cbn [fst snd world stdout png].
  - split; [eexists; reflexivity|]. split; [reflexivity|].
    intros H1. subst n. rewrite Hn in H1. discriminate.
  - split; [eexists; reflexivity|]. split; [reflexivity|].
    intros H1 Hok. fold n in Hx. rewrite H1 in Hx.
    destruct (degree_loop_total 1 _ Hok (repeat 0 1%nat) eq_refl) as [d Hd].
    unfold compute_degrees in Hx. congruence.
  - cbv zeta in Hc. fold n xs ys in Hc.
    destruct Hc as [[_ ->] | [Hp' _]]; [|congruence].
    cbn [fst snd world stdout png].
    split; [eexists; reflexivity|]. split; [reflexivity|].
    intros H1 _. split; [reflexivity|]. exists d, m. fold n in Hd. rewrite H1 in Hd.
    split; [exact Hd | reflexivity].
Qed.

Lemma single_node_fails :
  (List.length (ds_nodes single_node_data) < 2)%nat /\
  outcome (execute ref_kernels secret_seed0 single_node_data)
    = inl (ZeroSizeReduction Minimum).
Proof.
  split; [cbn; lia|].
  destruct (fewer_than_two_nodes_fails ref_kernels secret_seed0 single_node_data)
    as (_ & _ & _ & _ & H); [cbn; lia|].
  apply H; [reflexivity|].
  repeat constructor; unfold subscriptable; cbn; lia.
Defined.

(** C9 (as amended). Once the dataset is loaded, a run either completes,
    with the twelve statistics lines and the final line printed and the
    image laid out and written, or raises, with no image written and the
    lines printed before the failing statement (between 2 and 12 of them)
    left on the console.  An edge endpoint outside [-N, N), for N > 0,
    stops the run after the first seven lines, with the exception of the
    first such endpoint [i]: an [IndexError] carrying [i] and N when [i]
    fits a C long, an [OverflowError] when [i] lies in [2^63, 2^64), an
    [IndexError] naming neither beyond. *)
Theorem run_completes_or_leaves_prefix (K : Kernels) (secret : HashSecret) (data : Dataset) :
  let n := List.length (ds_nodes data) in
  let r := execute K secret data in
  ((outcome r = inr tt /\
    exists degrees m lens img,
      console r = stats_lines K data degrees m lens ++ [LSaved] /\
      written r = Some img /\ render K secret data degrees m = inr img /\
      lays_out K (geometry img) = true /\ can_write K (geometry img) = true)
   \/
   (exists x, outcome r = inl x /\ written r = None /\ ~ In LSaved (console r) /\
              (2 <= List.length (console r) <= 12)%nat))
  /\
  (ds_nodes data <> [] -> Exists (fun e => ~ endpoints_ok n e) (ds_edges data) ->
   console r = head_lines K data /\ written r = None /\
   exists i x,
     outcome r = inl x /\ ~ subscriptable n i /\
     (exists e, In e (ds_edges data) /\ (i = e_src e \/ i = e_tgt e)) /\
     (- 2 ^ 63 <= i < 2 ^ 63 -> x = IndexError i n) /\
     (2 ^ 63 <= i < 2 ^ 64 -> x = OverflowError) /\
     (i < - 2 ^ 63 \/ 2 ^ 64 <= i -> x = IndexErrorNotInteger)).
Proof.
  intros n r. split.
  - unfold r, outcome, written, console.
    destruct (execute_cases K secret data)
      as [[_ ->] | [(_ & x & _ & ->) | (_ & d & m & _ & _ & Hc)]];
      cbn [fst snd world stdout png].
    + right. eexists; repeat split; cbn; try lia. intuition discriminate.
    + right. eexists; repeat split; cbn; try lia. intuition discriminate.
    + cbv zeta in Hc.
      destruct Hc as [[_ ->] | [_ [(x & _ & ->) | [[_ ->] | (lens & _ & _ & Hc)]]]];
        cbn [fst snd world stdout png].
      * right. eexists; repeat split; cbn; try lia. intuition discriminate.
      * right. eexists; repeat split; cbn; try lia. intuition discriminate.
      * right. eexists; repeat split; cbn; try lia. intuition discriminate.
      * destruct Hc as [(x & _ & ->) | (img & Hr & ->)]; cbn [fst snd world stdout png].
        -- right. eexists; repeat split; cbn; try lia. intuition discriminate.
        -- left. split; [reflexivity|]. exists d, m, lens, img.
           apply figure_inr in Hr. destruct Hr as (Hr & Hl & Hw).
           repeat split; assumption.
  - intros Hne Hex.
    destruct (index_error_cases K secret data Hne Hex)
      as (i & before & e & after & Ho & Hbad & Hsplit & _ & Hi & Hc & Hw).
    fold n in Ho, Hbad, Hi.
    destruct (subscript_error_cases n i) as (E1 & E2 & E3).
    split; [exact Hc|]. split; [exact Hw|].
    exists i, (subscript_error n i). repeat split; auto.
    exists e. split; [rewrite Hsplit; apply in_elt|]. tauto.
Qed.

(** C9, as stated, fails: with an edge index one past the end, seven
    report lines are on the console when the run stops. *)
Lemma index_error_leaves_seven_lines :
  execute ref_kernels secret_seed0 past_end_data =
  (world [LNodes 1; LEdges 1; LXRange 0 0; LYRange 0 0; LStd 0 0;
          LAnyNaN false; LAnyInf false] None,
   inl (IndexError 1 1)) /\
  console (execute ref_kernels secret_seed0 past_end_data) <> [].
Proof. split; [vm_compute; reflexivity | discriminate]. Qed.

Lemma hue_range (secret : HashSecret) (i : nat) : 0 <= hue secret i < 360.
Proof. unfold hue. apply Z.mod_pos_bound. lia. Qed.

Lemma written_inv (K : Kernels) (secret : HashSecret) (data : Dataset) (img : Image) :
  written (execute K secret data) = Some img ->
  ds_nodes data <> [] /\
  exists degrees m, compute_degrees (List.length (ds_nodes data)) (ds_edges data) = inr degrees /\
                    int_max degrees = inr m /\
                    render K secret data degrees m = inr img.
Proof.
  unfold written.
  destruct (execute_cases K secret data)
    as [[_ ->] | [(_ & x & _ & ->) | (Hne & d & m & Hd & Hm & Hc)]];
    cbn [fst snd world stdout png]; try discriminate.
  cbv zeta in Hc.
  destruct Hc as [[_ ->] | [_ [(x & _ & ->) | [[_ ->] | (lens & _ & _ & Hc)]]]];
    cbn [fst snd world stdout png]; try discriminate.
  destruct Hc as [(x & _ & ->) | (img' & Hr & ->)]; cbn [fst snd world stdout png];
    try discriminate.
  intros H; inversion H; subst img'. split; [exact Hne|].
  apply figure_inr in Hr. destruct Hr as (Hr & _). now exists d, m.
Qed.

(** C1 (as amended). The hue of node [i] is [hash(str(i)) mod 360], a value
    in [0, 360) fixed by the index together with the interpreter's hash
    secret.  The secret reaches nothing else: two runs on the same input
    print the same report, end the same way, and write images of the same
    4500 x 1500 pixels. *)
Theorem runs_agree_up_to_hues (K : Kernels) (s1 s2 : HashSecret) (data : Dataset) :
  let r1 := execute K s1 data in
  let r2 := execute K s2 data in
  console r1 = console r2 /\
  outcome r1 = outcome r2 /\
  (forall i1 i2, written r1 = Some i1 -> written r2 = Some i2 ->
     width_px i1 = 4500 /\ height_px i1 = 1500 /\
     width_px i2 = 4500 /\ height_px i2 = 1500) /\
  (forall img, written r1 = Some img ->
     sc_c (p_scatter (panel1 img)) =
       HsvHues (map (hue s1) (seq 0 (List.length (ds_nodes data)))) 0.8%float) /\
  (forall i, 0 <= hue s1 i < 360).
Proof.
  intros r1 r2. split; [|split; [|split; [|split]]].
  - unfold r1, r2, console, execute, script.
    unfold bind at 1 5.
    destruct (report K data _) as [w [x|dm]]; [reflexivity|].
    apply (script_tail_secret K s1 s2 data (fst dm) (snd dm) w).
  - unfold r1, r2, outcome, execute, script.
    unfold bind at 1 5.
    destruct (report K data _) as [w [x|dm]]; [reflexivity|].
    apply (script_tail_secret K s1 s2 data (fst dm) (snd dm) w).
  - intros i1 i2 H1 H2.
    apply written_inv in H1. destruct H1 as (_ & d1 & m1 & _ & _ & H1).
    apply written_inv in H2. destruct H2 as (_ & d2 & m2 & _ & _ & H2).
    apply render_inr in H1. apply render_inr in H2. cbv zeta in H1, H2.
    intuition.
  - intros img H1.
    apply written_inv in H1. destruct H1 as (_ & d1 & m1 & _ & _ & H1).
    apply render_inr in H1. cbv zeta in H1. apply H1.
  - apply hue_range.
Qed.

(** C1, as stated, fails: the hue of node 0 is 238 in an interpreter
    started with hash seed 0 and 335 in one started with hash seed 1. *)
Lemma hue_depends_on_hash_secret :
  hue secret_seed0 0 = 238 /\ hue secret_seed1 0 = 335 /\
  written (execute ref_kernels secret_seed0 sample_data)
    <> written (execute ref_kernels secret_seed1 sample_data).
Proof.
  split; [vm_compute; reflexivity|]. split; [vm_compute; reflexivity|].
  vm_compute. intros H. inversion H.
Qed.

Ltac lines_in H :=
  unfold stats_lines, head_lines, mid_lines, pairwise_line, edge_line in H;
  cbn [app In] in H;
  repeat (destruct H as [H|H]; try discriminate H; try contradiction H).

(** C7. The pairwise-distance line reports the minimum, median and mean of
    the sample made of the Euclidean distances of exactly the pairs
    [(i, j)] with [i < j < min(500, N)], each pair once; the line is
    printed whenever there are at least two nodes and the degree loop does
    not raise. *)
Theorem pairwise_statistics (K : Kernels) (secret : HashSecret) (data : Dataset) :
  let xs := map node_x (ds_nodes data) in
  let ys := map node_y (ds_nodes data) in
  let n := List.length (ds_nodes data) in
  let m := Nat.min 500 n in
  let sample := map (fun ij => node_dist xs ys (fst ij) (snd ij)) (pairs m) in
  let r := execute K secret data in
  pair_dists xs ys n = sample /\
  (forall i j, In (i, j) (pairs m) <-> (i < j < m)%nat) /\
  NoDup (pairs m) /\
  (forall i j, node_dist xs ys i j =
     sqrt ((nth i xs nan - nth j xs nan) * (nth i xs nan - nth j xs nan)
           + (nth i ys nan - nth j ys nan) * (nth i ys nan - nth j ys nan))%float) /\
  (forall a b c, In (LPairwise a b c) (console r) ->
     a = amin K sample /\ b = median K sample /\ c = mean K sample) /\
  ((2 <= n)%nat -> Forall (endpoints_ok n) (ds_edges data) ->
   In (LPairwise (amin K sample) (median K sample) (mean K sample)) (console r)).
Proof.
  intros xs ys n m sample r.
  assert (Hs : pair_dists xs ys n = sample) by apply pair_dists_pairs.
  assert (Hline : pair_dists xs ys n <> [] ->
                  pairwise_line K data =
                  LPairwise (amin K sample) (median K sample) (mean K sample)).
  { unfold pairwise_line. fold xs ys n. rewrite Hs.
    destruct sample; [congruence | reflexivity]. }
  split; [exact Hs|]. split; [intros; apply in_pairs|]. split; [apply NoDup_pairs|].
  split; [reflexivity|]. split.
  - intros a b c. unfold r, console.
    destruct (execute_cases K secret data)
      as [[_ ->] | [(_ & x & _ & ->) | (_ & d & m' & _ & _ & Hc)]];
      cbn [fst snd world stdout png].
    + intros H. lines_in H.
    + intros H. lines_in H.
    + cbv zeta in Hc. fold xs ys n in Hc.
      destruct Hc as [[_ ->] | [Hp [(x & _ & ->) | [[_ ->] | (lens & _ & _ & Hc)]]]];
        [| | |destruct Hc as [(x & _ & ->) | (img & _ & ->)]];
        cbn [fst snd world stdout png]; intros H.
      * rewrite in_app_iff in H. destruct H as [H|H]; lines_in H.
      * rewrite !in_app_iff in H. destruct H as [[H|H]|H]; try solve [lines_in H].
        cbn [In] in H. destruct H as [H|[]]. rewrite (Hline Hp) in H.
        inversion H; auto.
      * rewrite !in_app_iff in H. destruct H as [[H|H]|H]; try solve [lines_in H].
        cbn [In] in H. destruct H as [H|[]]. rewrite (Hline Hp) in H.
        inversion H; auto.
      * unfold stats_lines in H. rewrite !in_app_iff in H.
        destruct H as [H|[H|H]]; try solve [lines_in H].
        cbn [In] in H. destruct H as [H|[H|[]]]; [|discriminate H].
        rewrite (Hline Hp) in H. inversion H; auto.
      * unfold stats_lines in H. rewrite !in_app_iff in H.
        destruct H as [[H|[H|H]]|H]; try solve [lines_in H].
        cbn [In] in H. destruct H as [H|[H|[]]]; [|discriminate H].
        rewrite (Hline Hp) in H. inversion H; auto.
  - intros H2 Hok.
    pose proof (pair_dists_nonempty xs ys n H2) as Hp.
    destruct (degree_loop_total n _ Hok (repeat 0 n) (repeat_length 0 n)) as [d0 Hd0].
    unfold r, console.
    destruct (execute_cases K secret data)
      as [[Hn _] | [(_ & x & Hx & _) | (_ & d & m' & _ & _ & Hc)]].
    + exfalso. subst n. fold (ds_nodes data) in *. rewrite Hn in H2. cbn in H2. lia.
    + exfalso. fold n in Hx. unfold compute_degrees in Hx. congruence.
    + cbv zeta in Hc. fold xs ys n in Hc.
      destruct Hc as [[Hp' _] | [_ [(x & _ & ->) | [[_ ->] | (lens & _ & _ & Hc)]]]];
        [congruence| | |destruct Hc as [(x & _ & ->) | (img & _ & ->)]];
        cbn [fst snd world stdout png]; unfold stats_lines;
        rewrite !in_app_iff, <- (Hline Hp); cbn [In]; auto.
Qed.

Lemma degrees_count_endpoints_sample :
  exists degrees,
    compute_degrees 3 (ds_edges sample_data) = inr degrees /\
    List.length degrees = 3%nat /\
    (forall i, (i < 3)%nat ->
       nth i degrees 0 = Z.of_nat (endpoints_at i (ds_edges sample_data))) /\
    (forall i ty, endpoints_at i [mk_edge (Z.of_nat i) (Z.of_nat i) ty] = 2%nat) /\
    total_degree degrees = 2 * Z.of_nat (List.length (ds_edges sample_data)).
Proof.
  apply (degrees_count_endpoints 3 (ds_edges sample_data)).
  repeat constructor; unfold valid_index; cbn; lia.
Defined.

(** ** Rounding to one decimal place *)

Lemma round_half_even_nearest (m : positive) (e : Z) :
  0 <= round_half_even_scaled (10 * Z.pos m) e /\
  nearest_tenths m e (round_half_even_scaled (10 * Z.pos m) e).
Proof.
  unfold round_half_even_scaled, nearest_tenths. cbv zeta.
  destruct (Z.leb_spec 0 e) as [He|He].
  - rewrite Z.max_l, Z.max_r by lia. change (2 ^ 0) with 1.
    assert (0 < 2 ^ e) by (apply Z.pow_pos_nonneg; lia).
    split; [nia|]. split; [lia|]. intros H1. lia.
  - rewrite Z.max_r, Z.max_l by lia. change (2 ^ 0) with 1.
    set (a := 10 * Z.pos m). set (d := 2 ^ (- e)).
    assert (Hd : 0 < d) by (apply Z.pow_pos_nonneg; lia).
    pose proof (Z.div_mod a d ltac:(lia)) as Hqr.
    pose proof (Z.mod_pos_bound a d Hd) as Hr.
    assert (Hq : 0 <= a / d) by (apply Z.div_pos; unfold a; lia).
    set (q := a / d) in *. set (r := a mod d) in *.
    rewrite Z.mul_1_r.
    destruct (Z.compare_spec (2 * r) d) as [E|E|E].
    + destruct (Z.even q) eqn:Ev.
      * split; [lia|]. split; [lia|]. auto.
      * split; [lia|]. split; [lia|]. intros _.
        rewrite Z.add_1_r, Z.even_succ, <- Z.negb_even, Ev. reflexivity.
    + split; [lia|]. split; lia.
    + split; [lia|]. split; lia.
Qed.

Lemma py_round1_tenths (x : float) : rounds_to_tenths x (py_round1 x).
Proof.
  unfold rounds_to_tenths, py_round1.
  destruct (Prim2SF x) as [s|s| |s m e]; try reflexivity.
  exists (round_half_even_scaled (10 * Z.pos m) e).
  destruct (round_half_even_nearest m e) as [H0 H1].
  split; [exact H0|]. split; [exact H1|]. reflexivity.
Qed.

Lemma nearest_tenths_unique (m : positive) (e : Z) (k1 k2 : Z) :
  nearest_tenths m e k1 -> nearest_tenths m e k2 -> k1 = k2.
Proof.
  unfold nearest_tenths. cbv zeta.
  set (N := 10 * Z.pos m * 2 ^ Z.max e 0). set (D := 2 ^ Z.max (- e) 0).
  assert (HD : 0 < D) by (apply Z.pow_pos_nonneg; lia).
  intros [A1 T1] [A2 T2].
  assert (Hstep : forall a b, 2 * Z.abs (N - a * D) <= D -> 2 * Z.abs (N - b * D) <= D ->
            (2 * Z.abs (N - a * D) = D -> Z.even a = true) ->
            (2 * Z.abs (N - b * D) = D -> Z.even b = true) ->
            a < b -> False).
  { intros a b Ha Hb Ta Tb Hlt.
    assert (Hm : a * D + D <= b * D) by nia.
    assert (Eb : b * D = a * D + D) by lia.
    assert (b = a + 1) by nia. subst b.
    assert (Ea : Z.even a = true) by (apply Ta; lia).
    assert (Ea' : Z.even (a + 1) = true) by (apply Tb; lia).
    rewrite Z.add_1_r, Z.even_succ, <- Z.negb_even, Ea in Ea'. discriminate. }
  destruct (Z.lt_trichotomy k1 k2) as [H|[H|H]]; [|exact H|].
  - exfalso. exact (Hstep k1 k2 A1 A2 T1 T2 H).
  - exfalso. exact (Hstep k2 k1 A2 A1 T2 T1 H).
Qed.

Lemma rounds_to_tenths_unique (x y1 y2 : float) :
  rounds_to_tenths x y1 -> rounds_to_tenths x y2 -> y1 = y2.
Proof.
  unfold rounds_to_tenths. destruct (Prim2SF x) as [s|s| |s m e]; try congruence.
  intros (k1 & _ & H1 & ->) (k2 & _ & H2 & ->).
  now rewrite (nearest_tenths_unique m e k1 k2).
Qed.

Lemma rounded_key_position (n : Node) : rounded_position n (rounded_key n).
Proof. split; apply py_round1_tenths. Qed.

Lemma rounded_positions_unique (nodes : list Node) (keys : list Key) :
  Forall2 rounded_position nodes keys -> keys = map rounded_key nodes.
Proof.
  induction 1 as [|n k nodes keys [Hx Hy] _ IH]; [reflexivity|].
  cbn [map]. rewrite IH. f_equal. destruct k as [kx ky]. cbn [fst snd] in Hx, Hy.
  unfold rounded_key.
  rewrite (rounds_to_tenths_unique _ _ _ Hx (py_round1_tenths (node_x n))).
  rewrite (rounds_to_tenths_unique _ _ _ Hy (py_round1_tenths (node_y n))).
  reflexivity.
Qed.

(** C6. The reported overlap count is the number of distinct
    coordinates, after rounding each node's x and y to one decimal place
    (to the nearest multiple of one tenth, ties to the even one), that are
    occupied by more than one node, two coordinates being the same when
    both components are the same number; reordering the nodes does not
    change the count. *)
Theorem overlap_count_distinct_and_permutation (nodes nodes' : list Node) :
  Permutation nodes nodes' ->
  (forall keys, Forall2 rounded_position nodes keys ->
     overlaps (map node_x nodes) (map node_y nodes) = multi_occupied keys) /\
  Forall2 rounded_position nodes (map rounded_key nodes) /\
  (forall a b, key_eqb a b = true <->
               same_number (fst a) (fst b) /\ same_number (snd a) (snd b)) /\
  overlaps (map node_x nodes) (map node_y nodes) = multi_occupied (map rounded_key nodes) /\
  overlaps (map node_x nodes') (map node_y nodes') =
    overlaps (map node_x nodes) (map node_y nodes) /\
  (forall K secret edges c,
     In (LOverlaps c) (console (execute K secret {| ds_nodes := nodes; ds_edges := edges |})) ->
     c = multi_occupied (map rounded_key nodes)).
Proof.
  intros Hp.
  assert (H1 : forall ns, overlaps (map node_x ns) (map node_y ns)
                          = multi_occupied (map rounded_key ns)).
  { intros ns. unfold overlaps.
    now rewrite rounded_keys_nodes, overlaps_of_incremental, multi_occupied_incremental. }
  split; [|split; [|split; [|split; [|split]]]].
  - intros keys Hk. rewrite (rounded_positions_unique nodes keys Hk). apply H1.
  - clear. induction nodes as [|n nodes IH]; constructor;
      [apply rounded_key_position | exact IH].
  - apply key_eqb_same_number.
  - apply H1.
  - unfold overlaps.
    rewrite !rounded_keys_nodes, !overlaps_of_incremental.
    apply incremental_overlaps_perm, Permutation_map. now symmetry.
  - intros K secret edges c. unfold console.
    destruct (execute_cases K secret {| ds_nodes := nodes; ds_edges := edges |})
      as [[_ ->] | [(_ & x & _ & ->) | (_ & d & m' & _ & _ & Hc)]];
      cbn [fst snd world stdout png].
    + intros H. lines_in H.
    + intros H. lines_in H.
    + assert (Hmid : forall l, In (LOverlaps c)
                 (head_lines K {| ds_nodes := nodes; ds_edges := edges |}
                  ++ mid_lines {| ds_nodes := nodes; ds_edges := edges |} d m' ++ l) ->
               (forall x, In x l -> x <> LOverlaps c) ->
               c = multi_occupied (map rounded_key nodes)).
      { intros l H Hl. rewrite !in_app_iff in H. destruct H as [H|[H|H]].
        - lines_in H.
        - unfold mid_lines in H. cbn [In ds_nodes] in H.
          destruct H as [H|[H|[H|[]]]]; try discriminate H.
          inversion H. apply H1.
        - now apply Hl in H. }
      cbv zeta in Hc. cbn [ds_nodes ds_edges] in Hc.
      destruct Hc as [[_ ->] | [Hp' [(x & _ & ->) | [[_ ->] | (lens & _ & _ & Hc)]]]];
        [| | |destruct Hc as [(x & _ & ->) | (img & _ & ->)]];
        cbn [fst snd world stdout png]; unfold stats_lines;
        rewrite <- ?app_assoc; intros H.
      * apply (Hmid []); [now rewrite app_nil_r|]. intros ? [].
      * apply (Hmid _ H). unfold pairwise_line. cbn [In]. intuition (subst; discriminate).
      * apply (Hmid _ H). unfold pairwise_line. cbn [In]. intuition (subst; discriminate).
      * apply (Hmid _ H). unfold pairwise_line, edge_line. cbn [In].
        intuition (subst; discriminate).
      * apply (Hmid _ H). unfold pairwise_line, edge_line. cbn [In app].
        intuition (subst; discriminate).
Qed.

Lemma overlap_count_sample :
  Permutation (ds_nodes sample_data) sample_nodes_reordered /\
  overlaps (map node_x (ds_nodes sample_data)) (map node_y (ds_nodes sample_data))
    = multi_occupied [(0, 0); (0, 0); (10, 10)]%float /\
  multi_occupied [(0, 0); (0, 0); (10, 10)]%float = 1%nat /\
  overlaps (map node_x sample_nodes_reordered) (map node_y sample_nodes_reordered) =
    overlaps (map node_x (ds_nodes sample_data)) (map node_y (ds_nodes sample_data)).
Proof.
  assert (Hp : Permutation (ds_nodes sample_data) sample_nodes_reordered)
    by apply (Permutation_cons_append [mk_node 0 0.04; mk_node 10 10] (mk_node 0 0)).
  destruct (overlap_count_distinct_and_permutation _ _ Hp)
    as (Hkeys & _ & _ & _ & Hperm & _).
  split; [exact Hp|]. split; [|split; [vm_compute; reflexivity | exact Hperm]].
  apply Hkeys.
  assert (Z0 : rounds_to_tenths 0 0) by reflexivity.
  assert (Z4 : rounds_to_tenths 0.04 0).
  { exists 0. split; [lia|]. split; [|vm_compute; reflexivity].
    vm_compute. split; discriminate. }
  assert (Z10 : rounds_to_tenths 10 10).
  { exists 100. split; [lia|]. split; [|vm_compute; reflexivity].
    vm_compute. split; discriminate. }
  repeat constructor; assumption.
Defined.

(** A figure was built only with finite limits for Panel 2. *)
Lemma render_finite (K : Kernels) (secret : HashSecret) (data : Dataset)
    (degrees : list Z) (m : Z) (img : Image) :
  render K secret data degrees m = inr img ->
  let xs := map node_x (ds_nodes data) in
  let ys := map node_y (ds_nodes data) in
  let radius := (2 * py_max (np_std K xs) (np_std K ys))%float in
  is_finite (np_mean K xs - radius) = true.
Proof.
  unfold render. cbv zeta.
  destruct (mapM _ (ds_edges data)) as [x|lines]; cbn [res_bind]; try discriminate.
  unfold set_lim at 1.
  destruct (is_finite (_ - _)); [reflexivity|].
  cbn [andb res_bind]. discriminate.
Qed.

(** C8. In a completed run, Panel 2 is the square window centred at the
    mean position with half-width twice the larger standard deviation
    (one of the two deviations, a number, which neither deviation
    exceeds; the x deviation unless the y deviation is greater), and its
    line collection holds exactly the edges both of whose endpoints have
    both coordinates strictly inside that window. *)
Theorem core_zoom_window (K : Kernels) (secret : HashSecret) (data : Dataset) (img : Image) :
  written (execute K secret data) = Some img ->
  let xs := map node_x (ds_nodes data) in
  let ys := map node_y (ds_nodes data) in
  let cx := mean K xs in
  let cy := mean K ys in
  exists larger,
    (larger = std K xs \/ larger = std K ys) /\
    (larger <? std K xs)%float = false /\ (larger <? std K ys)%float = false /\
    ((std K xs <? std K ys)%float = false -> larger = std K xs) /\
    is_nan larger = false /\
    (is_nan (std K xs) = false -> is_nan (std K ys) = false ->
     (std K xs <=? larger)%float = true /\ (std K ys <=? larger)%float = true) /\
    let radius := (2 * larger)%float in
    let shown := filter (edge_inside xs ys cx cy radius) (ds_edges data) in
    p_xlim (panel2 img) = Some (cx - radius, cx + radius)%float /\
    p_ylim (panel2 img) = Some (cy - radius, cy + radius)%float /\
    p_lines (panel2 img) = map (segment_of xs ys) shown /\
    p_colors (panel2 img) = map (fun e => edge_color (e_ty e)) shown /\
    (forall e, In e shown <->
       In e (ds_edges data) /\
       (abs (coord xs (e_src e) - cx) <? radius)%float = true /\
       (abs (coord ys (e_src e) - cy) <? radius)%float = true /\
       (abs (coord xs (e_tgt e) - cx) <? radius)%float = true /\
       (abs (coord ys (e_tgt e) - cy) <? radius)%float = true).
Proof.
  intros Hw xs ys cx cy.
  apply written_inv in Hw. destruct Hw as (Hne & d & m & _ & _ & Hr).
  pose proof (render_finite _ _ _ _ _ _ Hr) as Hfin.
  apply render_inr in Hr. cbv zeta in Hr, Hfin. fold xs ys in Hr, Hfin.
  assert (Hm : forall a, a = xs \/ a = ys -> np_mean K a = mean K a /\ np_std K a = std K a).
  { intros a Ha. assert (a <> []).
    { destruct Ha; subst a; unfold xs, ys; destruct (ds_nodes data); cbn; congruence. }
    destruct a; [congruence | split; reflexivity]. }
  destruct (Hm xs (or_introl eq_refl)) as [Ex1 Ex2].
  destruct (Hm ys (or_intror eq_refl)) as [Ey1 Ey2].
  rewrite Ex1, Ex2, Ey1, Ey2 in Hr. rewrite Ex1, Ex2, Ey2 in Hfin. fold cx cy in Hr.
  destruct (py_max_larger (std K xs) (std K ys)) as (Hor & Hx & Hy & Hge).
  exists (py_max (std K xs) (std K ys)).
  split; [exact Hor|]. split; [exact Hx|]. split; [exact Hy|]. split.
  { intros E. unfold py_max. now rewrite E. }
  split.
  { apply is_finite_not_nan, is_nan_sub_r, is_nan_mul_r in Hfin. exact Hfin. }
  split; [exact Hge|].
  intros radius shown. fold radius shown in Hr.
  destruct Hr as (_ & _ & H1 & H2 & H3 & H4 & _).
  repeat split; auto.
  - unfold shown in H. apply filter_In in H. apply H.
  - unfold shown in H. apply filter_In in H. destruct H as [_ H].
    unfold edge_inside, endpoint_inside, in_window in H.
    rewrite !andb_true_iff in H. apply H.
  - unfold shown in H. apply filter_In in H. destruct H as [_ H].
    unfold edge_inside, endpoint_inside, in_window in H.
    rewrite !andb_true_iff in H. apply H.
  - unfold shown in H. apply filter_In in H. destruct H as [_ H].
    unfold edge_inside, endpoint_inside, in_window in H.
    rewrite !andb_true_iff in H. apply H.
  - unfold shown in H. apply filter_In in H. destruct H as [_ H].
    unfold edge_inside, endpoint_inside, in_window in H.
    rewrite !andb_true_iff in H. apply H.
  - intros (Hin & A & B & C & D). unfold shown. apply filter_In. split; [exact Hin|].
    unfold edge_inside, endpoint_inside, in_window. now rewrite A, B, C, D.
Qed.

Lemma core_zoom_sample :
  exists img,
    written (execute ref_kernels secret_seed0 tall_data) = Some img /\
    std ref_kernels [0; 1]%float = 0.5%float /\
    std ref_kernels [0; 10]%float = 5%float /\
    p_xlim (panel2 img) = Some (-9.5, 10.5)%float /\
    p_ylim (panel2 img) = Some (-5, 15)%float /\
    p_lines (panel2 img) = [((0, 0), (1, 10))]%float.
Proof.
  destruct (written (execute ref_kernels secret_seed0 tall_data)) as [img|] eqn:H.
  - exists img. split; [reflexivity|].
    split; [vm_compute; reflexivity|]. split; [vm_compute; reflexivity|].
    destruct (core_zoom_window ref_kernels secret_seed0 tall_data img H)
      as (larger & Hor & _ & Hy & _ & _ & _ & Hx' & Hy' & Hl & _).
    destruct Hor as [-> | ->]; [vm_compute in Hy; discriminate Hy|].
    rewrite Hx', Hy', Hl. repeat split; vm_compute; reflexivity.
  - vm_compute in H. discriminate H.
Defined.

(** The worked example of the specification: three nodes at (0,0),
    (0,0.04) and (10,10) with the edge [[0,1,0]]. *)
Example sample_report :
  compute_degrees 3 (ds_edges sample_data) = inr [1; 1; 0] /\
  console (execute ref_kernels secret_seed0 sample_data) =
    [LNodes 3; LEdges 1; LXRange 0 10; LYRange 0 10;
     LStd (std ref_kernels [0; 0; 10]) (std ref_kernels [0; 0.04; 10]);
     LAnyNaN false; LAnyInf false; LMaxDegree 1; LIsolated 1 2; LOverlaps 1;
     LPairwise 0.04 (median ref_kernels [0.04; sqrt 200; sqrt (100 + 9.96 * 9.96)])
               (mean ref_kernels [0.04; sqrt 200; sqrt (100 + 9.96 * 9.96)]);
     LEdgeLengths 0.04 0.04 0.04 0.04; LSaved]%float.
Proof. split; vm_compute; reflexivity. Qed.

(** * Further properties of the script *)

(** ** Degrees under wrap-around subscripts *)

(** X1. The degree loop succeeds exactly when every endpoint lies in
    [-N, N); the degree of node [i] is then the number of endpoints equal
    to [i] or to [i - N], no degree is negative, and the degrees sum to
    twice the number of edges. *)
Theorem degrees_with_negative_indices (n : nat) (edges : list Edge) :
  ((exists degrees, compute_degrees n edges = inr degrees) <->
   Forall (endpoints_ok n) edges) /\
  (forall degrees, compute_degrees n edges = inr degrees ->
     List.length degrees = n /\
     (forall i, (i < n)%nat ->
        nth i degrees 0 = Z.of_nat (endpoints_on n i edges) /\ 0 <= nth i degrees 0) /\
     total_degree degrees = 2 * Z.of_nat (List.length edges)).
Proof.
  split.
  - split.
    + intros [d Hd]. apply (degree_loop_inr n _ (repeat 0 n) d); auto using repeat_length.
    + intros H. apply (degree_loop_total n _ H (repeat 0 n)), repeat_length.
  - intros degrees H. destruct (compute_degrees_wrapped n edges degrees H) as (Hl & Hn & Hs).
    split; [exact Hl|]. split; [|exact Hs].
    intros i Hi. rewrite (Hn i Hi). split; [reflexivity | lia].
Qed.

(** ** The shape of the console *)

Lemma console_shape (K : Kernels) (secret : HashSecret) (data : Dataset) :
  let n := List.length (ds_nodes data) in
  let xs := map node_x (ds_nodes data) in
  let ys := map node_y (ds_nodes data) in
  let out := console (execute K secret data) in
  out = [LNodes 0; LEdges (List.length (ds_edges data))] \/
  out = head_lines K data \/
  exists degrees m,
    compute_degrees n (ds_edges data) = inr degrees /\ int_max degrees = inr m /\
    (out = head_lines K data ++ mid_lines data degrees m \/
     out = head_lines K data ++ mid_lines data degrees m ++ [pairwise_line K data] \/
     exists lens,
       edge_lens xs ys (ds_edges data) = inr lens /\ lens <> [] /\
       (out = stats_lines K data degrees m lens \/
        out = stats_lines K data degrees m lens ++ [LSaved])).
Proof.
  intros n xs ys out. unfold out, console.
  destruct (execute_cases K secret data)
    as [[_ ->] | [(_ & x & _ & ->) | (_ & d & m & Hd & Hm & Hc)]];
    cbn [fst snd world stdout png]; auto.
  right; right. exists d, m. split; [exact Hd|]. split; [exact Hm|].
  cbv zeta in Hc.
  destruct Hc as [[_ ->] | [_ [(x & _ & ->) | [[_ ->] | (lens & Hl & Hne & Hc)]]]];
    cbn [fst snd world stdout png]; rewrite <- ?app_assoc; auto.
  right; right. exists lens. split; [exact Hl|]. split; [exact Hne|].
  destruct Hc as [(x & _ & ->) | (img & _ & ->)]; cbn [fst snd world stdout png]; auto.
Qed.

Ltac console_cases K secret data H :=
  let d := fresh "degrees" in
  let m := fresh "m" in
  let lens := fresh "lens" in
  let Hd := fresh "Hd" in
  let Hm := fresh "Hm" in
  let Hl := fresh "Hl" in
  let Hne := fresh "Hne" in
  destruct (console_shape K secret data)
    as [-> | [-> | (d & m & Hd & Hm & [-> | [-> | (lens & Hl & Hne & [-> | ->])]])]];
  unfold stats_lines, head_lines, mid_lines, pairwise_line, edge_line;
  cbn [app In]; intros H; repeat (destruct H as [H|H]); try discriminate H;
  try contradiction H.

(** ** The maximum degree *)

Lemma fold_max_spec (t : list Z) : forall h,
  (forall d, In d (h :: t) -> d <= fold_left Z.max t h) /\ In (fold_left Z.max t h) (h :: t).
Proof.
  induction t as [|a t IH]; intros h; cbn [fold_left].
  - split; [intros d [<-|[]]; lia | now left].
  - destruct (IH (Z.max h a)) as [Hle Hin]. split.
    + pose proof (Hle (Z.max h a) (or_introl eq_refl)) as Hm.
      intros d [E|[E|Hd]]; [subst d; lia | subst d; lia |].
      apply Hle. now right.
    + destruct Hin as [E|Hin]; [|right; now right].
      rewrite <- E. destruct (Z.max_spec h a) as [[_ ->]|[_ ->]]; cbn; auto.
Qed.

Lemma int_max_spec (degrees : list Z) (m : Z) :
  int_max degrees = inr m -> (forall d, In d degrees -> d <= m) /\ In m degrees.
Proof.
  destruct degrees as [|h t]; cbn [int_max]; [discriminate|].
  intros H; inversion H. apply fold_max_spec.
Qed.

Lemma total_degree_le (degrees : list Z) (m : Z) :
  (forall d, In d degrees -> d <= m) ->
  total_degree degrees <= m * Z.of_nat (List.length degrees).
Proof.
  induction degrees as [|h t IH]; intros H; [cbn; lia|].
  cbn [total_degree fold_right] in *. fold (total_degree t).
  rewrite length_cons.
  specialize (IH (fun d Hd => H d (or_intror Hd))).
  specialize (H h (or_introl eq_refl)). nia.
Qed.

Lemma max_degree_facts (n : nat) (edges : list Edge) (degrees : list Z) (m : Z) :
  compute_degrees n edges = inr degrees -> int_max degrees = inr m ->
  (forall i, (i < n)%nat -> 0 <= nth i degrees 0 <= m) /\
  (exists i, (i < n)%nat /\ nth i degrees 0 = m) /\
  0 <= m /\ (edges <> [] -> 1 <= m).
Proof.
  intros Hd Hm.
  destruct (compute_degrees_wrapped n edges degrees Hd) as (Hl & Hn & Hs).
  destruct (int_max_spec degrees m Hm) as [Hle Hin].
  assert (Hall : forall i, (i < n)%nat -> 0 <= nth i degrees 0 <= m).
  { intros i Hi. split; [rewrite (Hn i Hi); lia|].
    apply Hle, nth_In. now rewrite Hl. }
  destruct (In_nth _ _ 0 Hin) as (i & Hi & Ei). rewrite Hl in Hi.
  split; [exact Hall|]. split; [now exists i|].
  split; [destruct (Hall i Hi); lia|].
  intros Hne. pose proof (total_degree_le degrees m Hle) as Ht.
  assert (0 < List.length edges)%nat by (destruct edges; [congruence | cbn; lia]).
  nia.
Qed.

(** X2. Whenever the "Max degree" line is printed, its value is the
    largest per-node degree: no node exceeds it, some node attains it, it
    is not negative, and it is at least 1 as soon as there is an edge. *)
Theorem max_degree_is_maximum (K : Kernels) (secret : HashSecret) (data : Dataset) (m : Z) :
  In (LMaxDegree m) (console (execute K secret data)) ->
  let n := List.length (ds_nodes data) in
  exists degrees,
    compute_degrees n (ds_edges data) = inr degrees /\
    (forall i, (i < n)%nat -> 0 <= nth i degrees 0 <= m) /\
    (exists i, (i < n)%nat /\ nth i degrees 0 = m) /\
    0 <= m /\ (ds_edges data <> [] -> 1 <= m).
Proof.
  intros H n. revert H.
  console_cases K secret data H.
  all: inversion H; subst; exists degrees; split; [exact Hd|];
    now apply max_degree_facts.
Qed.

Lemma max_degree_sample :
  In (LMaxDegree 1) (console (execute ref_kernels secret_seed0 sample_data)) /\
  exists degrees,
    compute_degrees 3 (ds_edges sample_data) = inr degrees /\
    (forall i, (i < 3)%nat -> 0 <= nth i degrees 0 <= 1).
Proof.
  assert (H : In (LMaxDegree 1) (console (execute ref_kernels secret_seed0 sample_data)))
    by (vm_compute; tauto).
  split; [exact H|].
  destruct (max_degree_is_maximum ref_kernels secret_seed0 sample_data 1 H)
    as (d & Hd & Hall & _).
  exists d. split; [exact Hd | exact Hall].
Defined.

(** ** Isolated and degree-one nodes *)

Lemma count_by_index (f : Z -> bool) (l : list Z) :
  List.length (filter f l) =
  List.length (filter (fun i => f (nth i l 0)) (seq 0 (List.length l))).
Proof.
  induction l as [|h t IH]; [reflexivity|].
  cbn [List.length seq filter nth].
  rewrite <- seq_shift, filter_map_swap.
  destruct (f h); cbn [List.length]; rewrite length_map; cbn [nth]; now rewrite IH.
Qed.

Lemma count_disjoint {A} (f g : A -> bool) (l : list A) :
  (forall a, f a && g a = false) ->
  (List.length (filter f l) + List.length (filter g l) <= List.length l)%nat.
Proof.
  intros H. induction l as [|a l IH]; [cbn; lia|].
  cbn [filter]. specialize (H a).
  destruct (f a), (g a); cbn [List.length] in *; try discriminate; lia.
Qed.

(** X3. Whenever the "Isolated" line is printed, its first number counts
    the nodes no edge endpoint addresses, its second the nodes addressed
    by exactly one endpoint, and together they do not exceed the number of
    nodes. *)
Theorem isolated_counts (K : Kernels) (secret : HashSecret) (data : Dataset) (a b : nat) :
  In (LIsolated a b) (console (execute K secret data)) ->
  let n := List.length (ds_nodes data) in
  let touched i := endpoints_on n i (ds_edges data) in
  a = List.length (filter (fun i => Nat.eqb (touched i) 0) (seq 0 n)) /\
  b = List.length (filter (fun i => Nat.eqb (touched i) 1) (seq 0 n)) /\
  (a + b <= n)%nat.
Proof.
  intros H n touched. revert H.
  assert (Hcount : forall degrees v, compute_degrees n (ds_edges data) = inr degrees ->
            count_eq (Z.of_nat v) degrees =
            List.length (filter (fun i => Nat.eqb (touched i) v) (seq 0 n))).
  { intros degrees v Hd.
    destruct (compute_degrees_wrapped n _ degrees Hd) as (Hl & Hn & _).
    unfold count_eq. rewrite count_by_index, Hl. f_equal.
    apply filter_ext_in. intros i Hi. apply in_seq in Hi.
    rewrite (Hn i) by lia. fold (touched i).
    destruct (Z.eqb_spec (Z.of_nat v) (Z.of_nat (touched i)));
      destruct (Nat.eqb_spec (touched i) v); lia. }
  console_cases K secret data H.
  all: inversion H; subst a b;
    rewrite <- (Hcount degrees 0%nat Hd), <- (Hcount degrees 1%nat Hd).
  all: split; [reflexivity|]; split; [reflexivity|].
  all: destruct (compute_degrees_wrapped n _ degrees Hd) as (Hlen & _); rewrite <- Hlen.
  all: apply count_disjoint; intros d;
    destruct (Z.eqb_spec 0 d), (Z.eqb_spec 1 d); cbn; auto; lia.
Qed.

Lemma isolated_counts_sample :
  In (LIsolated 1 2) (console (execute ref_kernels secret_seed0 sample_data)) /\
  (1 + 2 <= List.length (ds_nodes sample_data))%nat.
Proof.
  assert (H : In (LIsolated 1 2) (console (execute ref_kernels secret_seed0 sample_data)))
    by (vm_compute; tauto).
  split; [exact H|].
  apply (isolated_counts ref_kernels secret_seed0 sample_data 1 2 H).
Defined.

(** ** A bound on the overlap count *)

Lemma counter_total_incr (k : Key) (c : list (Key * nat)) :
  counter_total (counter_incr k c) = S (counter_total c).
Proof.
  induction c as [|[k' n] c IH]; [reflexivity|].
  cbn [counter_incr]. destruct (key_eqb k' k); cbn [counter_total fold_right snd] in *.
  - lia.
  - fold (counter_total (counter_incr k c)). fold (counter_total c). lia.
Qed.

Lemma counter_total_Counter (keys : list Key) :
  counter_total (Counter keys) = List.length keys.
Proof.
  induction keys as [|k keys IH] using rev_ind; [reflexivity|].
  now rewrite Counter_snoc, counter_total_incr, IH, length_app, Nat.add_comm.
Qed.

Lemma multi_le_total (c : list (Key * nat)) : (2 * multi c <= counter_total c)%nat.
Proof.
  unfold multi. induction c as [|[k n] c IH]; [cbn; lia|].
  cbn [filter snd counter_total fold_right]. fold (counter_total c).
  destruct (Nat.ltb_spec 1 n); cbn [List.length]; lia.
Qed.

Lemma rounded_keys_length (nodes : list Node) :
  List.length (rounded_keys (map node_x nodes) (map node_y nodes)) = List.length nodes.
Proof. now rewrite rounded_keys_nodes, length_map. Qed.

(** X4. The counter of rounded coordinates accounts for every node once,
    so the overlap count never exceeds half the number of nodes. *)
Theorem overlaps_at_most_half (nodes : list Node) :
  let xs := map node_x nodes in
  let ys := map node_y nodes in
  counter_total (Counter (rounded_keys xs ys)) = List.length nodes /\
  (2 * overlaps xs ys <= List.length nodes)%nat.
Proof.
  cbv zeta. rewrite counter_total_Counter, rounded_keys_length. split; [reflexivity|].
  pose proof (multi_le_total (Counter (rounded_keys (map node_x nodes) (map node_y nodes))))
    as H.
  rewrite counter_total_Counter, rounded_keys_length in H. exact H.
Qed.

(** ** The size of the pairwise sample *)

Lemma length_flat_map_triangle {A} (f : nat -> nat -> A) (m : nat) : forall k a,
  (a + k = m)%nat ->
  (2 * List.length (flat_map (fun i => map (f i) (seq (S i) (m - S i))) (seq a k))
   = k * (k - 1))%nat.
Proof.
  induction k as [|k IH]; intros a Ha; [reflexivity|].
  cbn [seq flat_map]. rewrite length_app, length_map, length_seq.
  specialize (IH (S a) ltac:(lia)). nia.
Qed.

(** X5. The pairwise sample holds m(m-1)/2 distances for m = min(500, N):
    never more than 124750, however many nodes there are. *)
Theorem pairwise_sample_size (xs ys : list float) (n : nat) :
  let m := Nat.min 500 n in
  (2 * List.length (pair_dists xs ys n) = m * (m - 1))%nat /\
  Z.of_nat (List.length (pair_dists xs ys n)) <= 124750.
Proof.
  cbv zeta.
  assert (H : (2 * List.length (pair_dists xs ys n)
               = Nat.min 500 n * (Nat.min 500 n - 1))%nat).
  { unfold pair_dists. cbv zeta.
    apply (length_flat_map_triangle (node_dist xs ys) (Nat.min 500 n)). lia. }
  split; [exact H|].
  assert (Hm : (Nat.min 500 n * (Nat.min 500 n - 1) <= 500 * 499)%nat)
    by (apply Nat.mul_le_mono; lia).
  apply Nat2Z.inj_le in Hm. rewrite <- H in Hm.
  rewrite !Nat2Z.inj_mul in Hm. change (Z.of_nat 2) with 2 in Hm.
  change (Z.of_nat 500) with 500 in Hm. change (Z.of_nat 499) with 499 in Hm. lia.
Qed.

(** ** Edge lengths *)

Lemma edge_len_inr (xs ys : list float) (e : Edge) (d : float) :
  edge_len xs ys e = inr d -> d = edge_length_of xs ys e.
Proof.
  unfold edge_len, edge_length_of, coord.
  destruct (getitem nan xs (e_src e)); cbn [res_bind]; try discriminate.
  destruct (getitem nan xs (e_tgt e)); cbn [res_bind]; try discriminate.
  destruct (getitem nan ys (e_src e)); cbn [res_bind]; try discriminate.
  destruct (getitem nan ys (e_tgt e)); cbn [res_bind]; try discriminate.
  now intros H; inversion H.
Qed.

Lemma edge_lens_inr (xs ys : list float) (edges : list Edge) (lens : list float) :
  edge_lens xs ys edges = inr lens -> lens = map (edge_length_of xs ys) edges.
Proof. apply mapM_inr, edge_len_inr. Qed.

(** X6. Whenever the "Edge lengths" line is printed, it reports the
    minimum, median, mean and maximum of one length per edge, for every
    edge of the dataset in order (no sampling), each measured between the
    nodes the edge's subscripts address. *)
Theorem edge_length_statistics (K : Kernels) (secret : HashSecret) (data : Dataset)
    (a b c d : float) :
  In (LEdgeLengths a b c d) (console (execute K secret data)) ->
  let xs := map node_x (ds_nodes data) in
  let ys := map node_y (ds_nodes data) in
  let lens := map (edge_length_of xs ys) (ds_edges data) in
  ds_edges data <> [] /\ List.length lens = List.length (ds_edges data) /\
  a = amin K lens /\ b = median K lens /\ c = mean K lens /\ d = amax K lens.
Proof.
  intros H xs ys lens0. revert H.
  console_cases K secret data H.
  all: inversion H; subst a b c d.
  all: apply edge_lens_inr in Hl; fold xs ys lens0 in Hl; subst lens.
  all: assert (He : ds_edges data <> [])
      by (intros E; apply Hne; unfold lens0; now rewrite E).
  all: split; [exact He|]; split; [apply length_map|].
  all: destruct lens0; [congruence|]; repeat split; reflexivity.
Qed.

Lemma edge_length_sample :
  In (LEdgeLengths 0.04 0.04 0.04 0.04)
     (console (execute ref_kernels secret_seed0 sample_data)) /\
  ds_edges sample_data <> [].
Proof.
  assert (H : In (LEdgeLengths 0.04 0.04 0.04 0.04)
                 (console (execute ref_kernels secret_seed0 sample_data))).
  { vm_compute. do 11 right. left. reflexivity. }
  split; [exact H|].
  apply (edge_length_statistics ref_kernels secret_seed0 sample_data _ _ _ _ H).
Defined.

(** ** What decides how a run ends *)

Lemma render_limits (K : Kernels) (secret : HashSecret) (data : Dataset)
    (degrees : list Z) (m : Z) :
  Forall (endpoints_ok (List.length (ds_nodes data))) (ds_edges data) ->
  if limits_finite K data
  then exists img, render K secret data degrees m = inr img
  else render K secret data degrees m = inl AxisLimitsNotFinite.
Proof.
  intros Hok. unfold render, limits_finite, window_of.
  set (xs := map node_x (ds_nodes data)). set (ys := map node_y (ds_nodes data)).
  assert (Lx : List.length xs = List.length (ds_nodes data)) by apply length_map.
  assert (Ly : List.length ys = List.length (ds_nodes data)) by apply length_map.
  destruct (mapM_total _ _ (segment_total xs ys _ Lx Ly) _ Hok) as [lines ->].
  cbn [res_bind]. unfold set_lim.
  destruct (is_finite _ && is_finite _); cbn [res_bind andb]; [|reflexivity].
  destruct (is_finite _ && is_finite _); cbn [res_bind andb]; [|reflexivity].
  match goal with |- context [edges_in_view xs ys ?a ?b ?c ?d] =>
    destruct (edges_in_view_total xs ys _ Lx Ly a b c d Hok) as [shown Hs] end.
  rewrite Hs. cbn [res_bind].
  destruct (mapM_total _ _ (segment_total xs ys _ Lx Ly) shown) as [lines2 ->].
  { apply edges_in_view_inr in Hs. subst shown. now apply Forall_filter_keep. }
  cbn [res_bind]. eexists; reflexivity.
Qed.

Lemma compute_degrees_inr_ok (n : nat) (edges : list Edge) (degrees : list Z) :
  compute_degrees n edges = inr degrees -> Forall (endpoints_ok n) edges.
Proof. intros H. apply (degree_loop_inr n _ (repeat 0 n) degrees); auto using repeat_length. Qed.

Lemma compute_degrees_inl (n : nat) (edges : list Edge) (x : Exn) :
  compute_degrees n edges = inl x ->
  exists i e, x = subscript_error n i /\ ~ subscriptable n i /\
              In e edges /\ (i = e_src e \/ i = e_tgt e) /\
              ~ Forall (endpoints_ok n) edges.
Proof.
  intros H. pose proof H as H'. unfold compute_degrees in H'.
  destruct (degree_loop_inl n edges _ x (repeat_length 0 n) H')
    as (i & before & e & after & -> & Hbad & Hsplit & _ & Hi).
  exists i, e. split; [reflexivity|]. split; [exact Hbad|].
  split; [rewrite Hsplit; apply in_elt|]. split; [tauto|].
  intros Hok. destruct (degree_loop_total n _ Hok (repeat 0 n) (repeat_length 0 n)) as [d Hd].
  unfold compute_degrees in H. congruence.
Qed.

(** The ways a run can go, each with the condition on the dataset that
    selects it. *)
Lemma run_classification (K : Kernels) (secret : HashSecret) (data : Dataset) :
  let n := List.length (ds_nodes data) in
  let edges := ds_edges data in
  let r := execute K secret data in
  (n = 0%nat /\
   r = (world [LNodes 0; LEdges (List.length edges)] None, inl (ZeroSizeReduction Minimum)))
  \/
  ((0 < n)%nat /\ ~ Forall (endpoints_ok n) edges /\
   exists i e, ~ subscriptable n i /\ In e edges /\ (i = e_src e \/ i = e_tgt e) /\
               r = (world (head_lines K data) None, inl (subscript_error n i)))
  \/
  (n = 1%nat /\ Forall (endpoints_ok n) edges /\
   exists degrees m,
     r = (world (head_lines K data ++ mid_lines data degrees m) None,
          inl (ZeroSizeReduction Minimum)))
  \/
  ((2 <= n)%nat /\ Forall (endpoints_ok n) edges /\ edges = [] /\
   exists degrees m,
     r = (world (head_lines K data ++ mid_lines data degrees m ++ [pairwise_line K data])
                None, inl (ZeroSizeReduction Minimum)))
  \/
  ((2 <= n)%nat /\ Forall (endpoints_ok n) edges /\ edges <> [] /\
   limits_finite K data = false /\
   exists degrees m lens,
     r = (world (stats_lines K data degrees m lens) None, inl AxisLimitsNotFinite))
  \/
  ((2 <= n)%nat /\ Forall (endpoints_ok n) edges /\ edges <> [] /\
   limits_finite K data = true /\
   exists degrees m lens img,
     compute_degrees n edges = inr degrees /\ int_max degrees = inr m /\
     render K secret data degrees m = inr img /\
     ((lays_out K (geometry img) = false /\
       r = (world (stats_lines K data degrees m lens) None, inl LayoutError))
      \/
      (lays_out K (geometry img) = true /\ can_write K (geometry img) = false /\
       r = (world (stats_lines K data degrees m lens) None, inl SaveError))
      \/
      (lays_out K (geometry img) = true /\ can_write K (geometry img) = true /\
       r = (world (stats_lines K data degrees m lens ++ [LSaved]) (Some img), inr tt)))).
Proof.
  intros n edges r. unfold r.
  destruct (execute_cases K secret data)
    as [[Hn ->] | [(Hne & x & Hx & ->) | (Hne & d & m & Hd & Hm & Hc)]].
  - left. split; [|reflexivity]. unfold n. now rewrite Hn.
  - right; left.
    assert (0 < n)%nat by (unfold n; destruct (ds_nodes data); [congruence | cbn; lia]).
    destruct (compute_degrees_inl _ _ _ Hx) as (i & e & -> & Hbad & Hin & Hi & Hnot).
    split; [assumption|]. split; [exact Hnot|]. exists i, e. auto.
  - right; right.
    assert (Hpos : (0 < n)%nat)
      by (unfold n; destruct (ds_nodes data); [congruence | cbn; lia]).
    pose proof (compute_degrees_inr_ok _ _ _ Hd) as Hok. fold n edges in Hok.
    cbv zeta in Hc. fold n in Hc.
    destruct Hc as [[Hp ->] | [Hp [(x & Hx & _) | [[Hl ->] | (lens & Hl & Hlne & Hc)]]]].
    + left. split; [|split; [exact Hok | now exists d, m]].
      destruct (Nat.lt_ge_cases n 2) as [|H2]; [lia|].
      exfalso. exact (pair_dists_nonempty _ _ n H2 Hp).
    + exfalso.
      assert (Lx : List.length (map node_x (ds_nodes data)) = n) by apply length_map.
      assert (Ly : List.length (map node_y (ds_nodes data)) = n) by apply length_map.
      destruct (mapM_total _ _ (edge_len_total _ _ n Lx Ly) _ Hok) as [lens Hl].
      unfold edge_lens in Hx. fold edges in Hx. congruence.
    + right; left.
      assert (H2 : (2 <= n)%nat).
      { destruct (Nat.lt_ge_cases n 2) as [Hlt|]; [|assumption].
        exfalso. apply Hp. now apply pair_dists_small. }
      split; [exact H2|]. split; [exact Hok|]. split.
      * apply edge_lens_inr in Hl. symmetry in Hl. now apply map_eq_nil in Hl.
      * exists d, m. now rewrite <- app_assoc.
    + right; right.
      assert (H2 : (2 <= n)%nat).
      { destruct (Nat.lt_ge_cases n 2) as [Hlt|]; [|assumption].
        exfalso. apply Hp. now apply pair_dists_small. }
      assert (He : edges <> []).
      { intros E. apply Hlne. apply edge_lens_inr in Hl. fold edges in Hl.
        now rewrite Hl, E. }
      pose proof (render_limits K secret data d m Hok) as Hlim.
      assert (Hfin : forall img, render K secret data d m = inr img ->
                                 limits_finite K data = true).
      { intros img Hr. destruct (limits_finite K data); [reflexivity | congruence]. }
      destruct Hc as [(x & Hr & ->) | (img & Hr & ->)].
      * apply figure_inl in Hr.
        destruct Hr as [Hr | (img & Hr & [[Hlay ->] | (Hlay & Hsave & ->)])].
        -- left. split; [exact H2|]. split; [exact Hok|]. split; [exact He|].
           destruct (limits_finite K data).
           ++ destruct Hlim as [img Hi]. congruence.
           ++ split; [reflexivity|]. exists d, m, lens. congruence.
        -- right. split; [exact H2|]. split; [exact Hok|]. split; [exact He|].
           split; [exact (Hfin img Hr)|]. exists d, m, lens, img. auto 10.
        -- right. split; [exact H2|]. split; [exact Hok|]. split; [exact He|].
           split; [exact (Hfin img Hr)|]. exists d, m, lens, img. auto 10.
      * apply figure_inr in Hr. destruct Hr as (Hr & Hlay & Hsave).
        right. split; [exact H2|]. split; [exact Hok|]. split; [exact He|].
        split; [exact (Hfin img Hr)|]. exists d, m, lens, img. auto 10.
Qed.

(** The figure is built exactly when the statistics report runs through
    and the four limits of Panel 2 are finite. *)
Lemma drawing_built (K : Kernels) (secret : HashSecret) (data : Dataset) :
  let n := List.length (ds_nodes data) in
  (2 <= n)%nat -> Forall (endpoints_ok n) (ds_edges data) -> ds_edges data <> [] ->
  forall degrees m img,
    compute_degrees n (ds_edges data) = inr degrees -> int_max degrees = inr m ->
    render K secret data degrees m = inr img ->
    drawing K secret data = inr img.
Proof.
  intros n _ _ _ d m img Hd Hm Hr. unfold drawing. fold n.
  rewrite Hd. cbn [res_bind]. rewrite Hm. exact Hr.
Qed.


(** The two failures after the report, on kernels that produce them. *)
Example layout_and_save_failures :
  (outcome (execute strict_layout_kernels secret_seed0 formula_data) = inl LayoutError /\
   written (execute strict_layout_kernels secret_seed0 formula_data) = None /\
   List.length (console (execute strict_layout_kernels secret_seed0 formula_data)) = 12%nat) /\
  (outcome (execute read_only_kernels secret_seed0 formula_data) = inl SaveError /\
   written (execute read_only_kernels secret_seed0 formula_data) = None /\
   List.length (console (execute read_only_kernels secret_seed0 formula_data)) = 12%nat) /\
  outcome (execute strict_layout_kernels secret_seed0 tall_data) = inr tt.
Proof. repeat split; vm_compute; reflexivity. Qed.


(** X8. A run completes, printing every line and writing the image,
    exactly when the dataset has at least two nodes and at least one edge,
    every edge endpoint lies in [-N, N), the four axis limits of Panel 2
    are finite, and matplotlib lays out and saves the figure built from
    them without raising; under the first four conditions the figure is
    always built, and the image written is that figure. *)
Theorem run_completes_iff (K : Kernels) (secret : HashSecret) (data : Dataset) :
  let n := List.length (ds_nodes data) in
  let edges := ds_edges data in
  let r := execute K secret data in
  (outcome r = inr tt <->
   (2 <= n)%nat /\ edges <> [] /\ Forall (endpoints_ok n) edges /\
   limits_finite K data = true /\
   exists img, drawing K secret data = inr img /\
               lays_out K (geometry img) = true /\ can_write K (geometry img) = true)
  /\
  ((2 <= n)%nat /\ edges <> [] /\ Forall (endpoints_ok n) edges /\
   limits_finite K data = true -> exists img, drawing K secret data = inr img)
  /\
  (outcome r = inr tt <-> exists img, written r = Some img)
  /\
  (forall img, written r = Some img -> drawing K secret data = inr img)
  /\
  (outcome r = inr tt -> List.length (console r) = 13%nat).
Proof.
  intros n edges r. unfold r, outcome, written, console.
  destruct (run_classification K secret data)
    as [(H0 & ->) | [(Hp & Hnot & i & e & Hbad & _ & _ & ->) | [(H1 & Hok & d & m & ->)
       | [(H2 & Hok & He & d & m & ->) | [(H2 & Hok & He & Hlim & d & m & l & ->)
       | (H2 & Hok & He & Hlim & d & m & l & img & Hd & Hm & Hr & Hc)]]]]];
    cbn [fst snd world stdout png]; fold n edges.
  1-5: split; [|split; [|split; [|split]]]; [split | | split | |]; try discriminate;
    try (intros [img Hi]; discriminate Hi).
  - intros (Hn & _). lia.
  - intros (Hn & _). lia.
  - intros (_ & _ & Hok & _). contradiction.
  - intros (_ & _ & Hok & _). contradiction.
  - intros (Hn & _). lia.
  - intros (Hn & _). lia.
  - intros (_ & Hne & _). contradiction.
  - intros (_ & Hne & _). contradiction.
  - intros (_ & _ & _ & Hl & _). congruence.
  - intros (_ & _ & _ & Hl). congruence.
  - pose proof (drawing_built K secret data H2 Hok He d m img Hd Hm Hr) as Hdraw.
    destruct Hc as [(Hlay & ->) | [(Hlay & Hsave & ->) | (Hlay & Hsave & ->)]];
      cbn [fst snd world stdout png].
    + split; [|split; [|split; [|split]]]; try discriminate.
      * split; [discriminate|]. intros (_ & _ & _ & _ & img0 & E & L0 & _). congruence.
      * intros _. now exists img.
      * split; [discriminate|]. intros [img0 Hi]; discriminate Hi.
    + split; [|split; [|split; [|split]]]; try discriminate.
      * split; [discriminate|]. intros (_ & _ & _ & _ & img0 & E & _ & S0). congruence.
      * intros _. now exists img.
      * split; [discriminate|]. intros [img0 Hi]; discriminate Hi.
    + split; [|split; [|split; [|split]]].
      * split; [|reflexivity]. intros _. repeat split; auto. now exists img.
      * intros _. now exists img.
      * split; [intros _; now exists img | reflexivity].
      * intros img0 E. inversion E; subst img0. exact Hdraw.
      * intros _. unfold stats_lines, head_lines, mid_lines. rewrite !length_app.
        reflexivity.
Qed.

(** ** The panels of a completed run *)

Lemma mask_nodes (K : Kernels) (data : Dataset) (nodes : list Node) :
  map (fun p => in_window (fst (fst (window_of K data))) (snd (fst (window_of K data)))
                          (snd (window_of K data)) (fst p) (snd p))
      (combine (map node_x nodes) (map node_y nodes))
  = map (node_inside K data) nodes.
Proof.
  unfold node_inside. destruct (window_of K data) as [[cx cy] radius]. cbn [fst snd].
  induction nodes as [|n nodes IH]; [reflexivity|].
  cbn [map combine fst snd]. now rewrite IH.
Qed.

Lemma select_map {A B} (f : A -> bool) (g : A -> B) (l : list A) :
  select (map f l) (map g l) = map g (filter f l).
Proof.
  induction l as [|a l IH]; [reflexivity|].
  cbn [map select filter]. destruct (f a); cbn [map]; now rewrite IH.
Qed.

Lemma select_combine {A B} (f : A -> bool) (l : list A) (v : list B) :
  select (map f l) v = map snd (filter (fun p => f (fst p)) (combine l v)).
Proof.
  revert v. induction l as [|a l IH]; intros [|b v]; try reflexivity.
  cbn [map select combine filter fst]. destruct (f a); cbn [map snd]; now rewrite IH.
Qed.

Lemma length_filter_combine {A B} (f : A -> bool) (l : list A) (v : list B) :
  List.length v = List.length l ->
  List.length (filter (fun p => f (fst p)) (combine l v)) = List.length (filter f l).
Proof.
  revert v. induction l as [|a l IH]; intros [|b v] H; try discriminate; [reflexivity|].
  cbn [combine filter fst]. injection H as H.
  destruct (f a); cbn [List.length]; now rewrite IH.
Qed.

Lemma label_core_firstn (nodes : list Node) (mask : list bool) (order : list nat) :
  forall labeled,
    label_core nodes mask order labeled =
    map (annotate nodes 5 3)
        (firstn (30 - labeled) (filter (fun i => nth i mask false) order)).
Proof.
  induction order as [|i order IH]; intros labeled; cbn [label_core filter].
  - now rewrite firstn_nil.
  - destruct (nth i mask false) eqn:Hm; cbn [andb].
    + destruct (Nat.ltb_spec labeled 30) as [Hlt|Hge].
      * replace (30 - labeled)%nat with (S (30 - S labeled)) by lia.
        cbn [firstn map]. now rewrite IH.
      * rewrite IH. replace (30 - labeled)%nat with 0%nat by lia. reflexivity.
    + apply IH.
Qed.

Lemma in_firstn {A} (n : nat) (l : list A) (a : A) : In a (firstn n l) -> In a l.
Proof.
  intros H. rewrite <- (firstn_skipn n l). apply in_or_app. now left.
Qed.

Lemma mapM_segment_all (xs ys : list float) (edges : list Edge) (lines : list Segment) :
  mapM (segment xs ys) edges = inr lines -> lines = map (segment_of xs ys) edges.
Proof. apply mapM_inr, segment_inr. Qed.

(** Every field of the image a successful rendering returns. *)
Lemma render_panels (K : Kernels) (secret : HashSecret) (data : Dataset)
    (degrees : list Z) (m : Z) (img : Image) :
  render K secret data degrees m = inr img ->
  let nodes := ds_nodes data in
  let xs := map node_x nodes in
  let ys := map node_y nodes in
  let sizes := sizes_of degrees m in
  let hues := hues_of secret (List.length nodes) in
  let mask := map (node_inside K data) nodes in
  let order := rev (argsort K degrees) in
  p_lines (panel1 img) = map (segment_of xs ys) (ds_edges data) /\
  p_colors (panel1 img) = map (fun e => edge_color (e_ty e)) (ds_edges data) /\
  p_scatter (panel1 img) =
    {| sc_x := xs; sc_y := ys; sc_s := sizes; sc_c := HsvHues hues 0.8%float |} /\
  p_scatter (panel2 img) =
    {| sc_x := select mask xs; sc_y := select mask ys; sc_s := select mask sizes;
       sc_c := HsvHues (select mask hues) 0.8%float |} /\
  p_labels (panel2 img) = label_core nodes mask order 0 /\
  p_lines (panel3 img) = [] /\
  p_scatter (panel3 img) =
    {| sc_x := xs; sc_y := ys; sc_s := sizes; sc_c := Plasma degrees |} /\
  p_labels (panel3 img) = map (annotate nodes 6 4) (firstn 15 order).
Proof.
  unfold render. cbv zeta.
  destruct (mapM _ (ds_edges data)) as [x|lines] eqn:H1; cbn [res_bind]; try discriminate.
  destruct (set_lim _ _) as [x|xlim]; cbn [res_bind]; try discriminate.
  destruct (set_lim _ _) as [x|ylim]; cbn [res_bind]; try discriminate.
  destruct (edges_in_view _ _ _ _ _ _) as [x|shown] eqn:H2; cbn [res_bind]; try discriminate.
  destruct (mapM _ shown) as [x|lines2] eqn:H3; cbn [res_bind]; try discriminate.
  intros H; inversion H; subst img; clear H.
  cbn [panel1 panel2 panel3 p_lines p_colors p_scatter p_labels].
  apply mapM_segment_all in H1. subst lines.
  pose proof (mask_nodes K data (ds_nodes data)) as Hmask.
  unfold window_of in Hmask at 1 2 3. cbn [fst snd] in Hmask. rewrite Hmask.
  repeat split; reflexivity.
Qed.

Lemma length_sizes_of (degrees : list Z) (m : Z) :
  List.length (sizes_of degrees m) = List.length degrees.
Proof. apply length_map. Qed.

Lemma length_hues_of (secret : HashSecret) (n : nat) :
  List.length (hues_of secret n) = n.
Proof. unfold hues_of. now rewrite length_map, length_seq. Qed.

(** A completed run, with the degrees it rendered. *)
Lemma completed_run (K : Kernels) (secret : HashSecret) (data : Dataset) (img : Image) :
  written (execute K secret data) = Some img ->
  let n := List.length (ds_nodes data) in
  exists degrees m,
    compute_degrees n (ds_edges data) = inr degrees /\ int_max degrees = inr m /\
    render K secret data degrees m = inr img /\
    List.length degrees = n /\ ds_edges data <> [] /\ (2 <= n)%nat.
Proof.
  intros H. cbv zeta. revert H. unfold written.
  destruct (run_classification K secret data)
    as [(H0 & ->) | [(Hp & Hnot & i & e & Hbad & _ & _ & ->) | [(H1 & Hok & d & m & ->)
       | [(H2 & Hok & He & d & m & ->) | [(H2 & Hok & He & Hlim & d & m & l & ->)
       | (H2 & Hok & He & Hlim & d & m & l & img' & Hd & Hm & Hr &
          [(_ & ->) | [(_ & _ & ->) | (_ & _ & ->)]])]]]]];
    cbn [fst snd world stdout png]; try discriminate.
  intros H; inversion H; subst img'. exists d, m.
  destruct (compute_degrees_wrapped _ _ _ Hd) as (Hl & _). auto 10.
Qed.

(** X9. In a completed run Panel 1 draws every edge once, in input
    order, between the nodes its subscripts address, with the colour of
    its type tag (one fixed colour each for 0, 1 and 2, one fallback for
    anything else); Panels 1 and 3 draw every node at its position with
    size 2 + (degree / max_degree) * 30, where the maximum degree is at
    least 1 and bounds every degree, so the division is never by zero. *)
Theorem full_layout_panels (K : Kernels) (secret : HashSecret) (data : Dataset) (img : Image) :
  written (execute K secret data) = Some img ->
  let nodes := ds_nodes data in
  let edges := ds_edges data in
  let n := List.length nodes in
  let xs := map node_x nodes in
  let ys := map node_y nodes in
  exists degrees m,
    compute_degrees n edges = inr degrees /\ int_max degrees = inr m /\
    1 <= m /\ (forall i, (i < n)%nat -> 0 <= nth i degrees 0 <= m) /\
    p_lines (panel1 img) = map (segment_of xs ys) edges /\
    p_colors (panel1 img) = map (fun e => edge_color (e_ty e)) edges /\
    List.length (p_lines (panel1 img)) = List.length edges /\
    List.length (p_colors (panel1 img)) = List.length edges /\
    (forall ty, ty <> 0 -> ty <> 1 -> ty <> 2 -> edge_color ty = (0.5, 0.5, 0.5, 0.1)%float) /\
    p_scatter (panel1 img) =
      {| sc_x := xs; sc_y := ys; sc_s := sizes_of degrees m;
         sc_c := HsvHues (hues_of secret n) 0.8%float |} /\
    p_scatter (panel3 img) =
      {| sc_x := xs; sc_y := ys; sc_s := sizes_of degrees m; sc_c := Plasma degrees |} /\
    p_lines (panel3 img) = [] /\
    List.length xs = n /\ List.length ys = n /\
    List.length (sizes_of degrees m) = n /\ List.length (hues_of secret n) = n.
Proof.
  intros Hw nodes edges n xs ys.
  destruct (completed_run K secret data img Hw) as (d & m & Hd & Hm & Hr & Hl & He & H2).
  fold n edges in Hd, Hl, H2.
  destruct (max_degree_facts n edges d m Hd Hm) as (Hall & _ & _ & H1).
  apply render_panels in Hr. cbv zeta in Hr. fold nodes xs ys n in Hr.
  destruct Hr as (L1 & C1 & S1 & _ & _ & L3 & S3 & _).
  exists d, m. split; [exact Hd|]. split; [exact Hm|]. split; [now apply H1|].
  split; [exact Hall|]. split; [exact L1|]. split; [exact C1|].
  split; [rewrite L1; apply length_map|]. split; [rewrite C1; apply length_map|].
  split.
  { intros ty A B C. unfold edge_color.
    destruct (Z.eqb_spec ty 0); [contradiction|].
    destruct (Z.eqb_spec ty 1); [contradiction|].
    destruct (Z.eqb_spec ty 2); [contradiction|]. reflexivity. }
  split; [exact S1|]. split; [exact S3|]. split; [exact L3|].
  unfold xs, ys. rewrite !length_map, length_sizes_of, length_hues_of. auto.
Qed.

Lemma full_layout_sample :
  exists img,
    written (execute ref_kernels secret_seed0 sample_data) = Some img /\
    p_colors (panel1 img) = [(0.8, 0.2, 0.2, 0.12)%float] /\
    sc_s (p_scatter (panel1 img)) = [32; 32; 2]%float.
Proof.
  destruct (written (execute ref_kernels secret_seed0 sample_data)) as [img|] eqn:H.
  - exists img. split; [reflexivity|].
    destruct (full_layout_panels ref_kernels secret_seed0 sample_data img H)
      as (d & m & Hd & Hm & _ & _ & _ & Hc & _ & _ & _ & Hs & _).
    split; [rewrite Hc; reflexivity|].
    rewrite Hs. cbn [sc_s].
    vm_compute in Hd. inversion Hd; subst d.
    vm_compute in Hm. inversion Hm; subst m. vm_compute. reflexivity.
  - vm_compute in H. discriminate H.
Defined.

(** X10. In a completed run Panel 2 draws exactly the nodes strictly
    inside the window, in input order, each with its own size and hue:
    the four arrays of the scatter call are cut by the same mask and have
    the same length. *)
Theorem core_zoom_nodes (K : Kernels) (secret : HashSecret) (data : Dataset) (img : Image) :
  written (execute K secret data) = Some img ->
  let nodes := ds_nodes data in
  let inside := filter (node_inside K data) nodes in
  exists degrees m sizes hues,
    compute_degrees (List.length nodes) (ds_edges data) = inr degrees /\
    int_max degrees = inr m /\
    p_scatter (panel2 img) =
      {| sc_x := map node_x inside; sc_y := map node_y inside; sc_s := sizes;
         sc_c := HsvHues hues 0.8%float |} /\
    sizes = map snd (filter (fun p => node_inside K data (fst p))
                            (combine nodes (sizes_of degrees m))) /\
    hues = map snd (filter (fun p => node_inside K data (fst p))
                           (combine nodes (hues_of secret (List.length nodes)))) /\
    List.length sizes = List.length inside /\ List.length hues = List.length inside /\
    (forall nd, In nd inside <->
       In nd nodes /\
       in_window (fst (fst (window_of K data))) (snd (fst (window_of K data)))
                 (snd (window_of K data)) (node_x nd) (node_y nd) = true).
Proof.
  intros Hw nodes inside.
  destruct (completed_run K secret data img Hw) as (d & m & Hd & Hm & Hr & Hl & _ & _).
  apply render_panels in Hr. cbv zeta in Hr. fold nodes in Hr, Hd, Hl.
  destruct Hr as (_ & _ & _ & S2 & _).
  rewrite !select_map, !select_combine in S2. fold inside in S2.
  eexists d, m, _, _. split; [exact Hd|]. split; [exact Hm|]. split; [exact S2|].
  split; [reflexivity|]. split; [reflexivity|].
  split; [|split].
  - rewrite length_map. apply length_filter_combine. now rewrite length_sizes_of.
  - rewrite length_map. apply length_filter_combine. now rewrite length_hues_of.
  - intros nd. unfold inside. rewrite filter_In. unfold node_inside.
    destruct (window_of K data) as [[cx cy] radius]. reflexivity.
Qed.

Lemma core_zoom_nodes_sample :
  exists img,
    written (execute ref_kernels secret_seed0 sample_data) = Some img /\
    sc_x (p_scatter (panel2 img)) = [0; 0; 10]%float.
Proof.
  destruct (written (execute ref_kernels secret_seed0 sample_data)) as [img|] eqn:H.
  - exists img. split; [reflexivity|].
    destruct (core_zoom_nodes ref_kernels secret_seed0 sample_data img H)
      as (d & m & sizes & hues & _ & _ & Hs & _).
    rewrite Hs. vm_compute. reflexivity.
  - vm_compute in H. discriminate H.
Defined.

(** X11. In a completed run Panel 2 labels the first 30 nodes, in
    descending-degree order, that lie inside the window, and Panel 3 the
    first 15 nodes of that order: never more than 30 and 15 labels, and
    every Panel 2 label belongs to a node the mask keeps. *)
Theorem panel_labels (K : Kernels) (secret : HashSecret) (data : Dataset) (img : Image) :
  written (execute K secret data) = Some img ->
  let nodes := ds_nodes data in
  let mask := map (node_inside K data) nodes in
  exists degrees,
    compute_degrees (List.length nodes) (ds_edges data) = inr degrees /\
    let order := rev (argsort K degrees) in
    let kept := firstn 30 (filter (fun i => nth i mask false) order) in
    p_labels (panel2 img) = map (annotate nodes 5 3) kept /\
    (forall i, In i kept -> In i order /\ nth i mask false = true) /\
    (List.length (p_labels (panel2 img)) <= 30)%nat /\
    p_labels (panel3 img) = map (annotate nodes 6 4) (firstn 15 order) /\
    (List.length (p_labels (panel3 img)) <= 15)%nat.
Proof.
  intros Hw nodes mask.
  destruct (completed_run K secret data img Hw) as (d & m & Hd & _ & Hr & _).
  apply render_panels in Hr. cbv zeta in Hr. fold nodes mask in Hr, Hd.
  destruct Hr as (_ & _ & _ & _ & L2 & _ & _ & L3).
  exists d. split; [exact Hd|]. cbv zeta.
  rewrite label_core_firstn in L2. rewrite Nat.sub_0_r in L2.
  split; [exact L2|]. split; [|split; [|split]].
  - intros i Hi. apply in_firstn in Hi. apply filter_In in Hi. exact Hi.
  - rewrite L2, length_map. apply firstn_le_length.
  - exact L3.
  - rewrite L3, length_map. apply firstn_le_length.
Qed.

Lemma panel_labels_sample :
  exists img,
    written (execute ref_kernels secret_seed0 sample_data) = Some img /\
    (List.length (p_labels (panel2 img)) <= 30)%nat /\
    (List.length (p_labels (panel3 img)) <= 15)%nat.
Proof.
  destruct (written (execute ref_kernels secret_seed0 sample_data)) as [img|] eqn:H.
  - exists img. split; [reflexivity|].
    destruct (panel_labels ref_kernels secret_seed0 sample_data img H)
      as (d & _ & _ & _ & H2 & _ & H3).
    split; [exact H2 | exact H3].
  - vm_compute in H. discriminate H.
Defined.

(** ** Negative subscripts and their positive twins *)

Lemma normalize_index_twin (n : nat) (i : Z) :
  subscriptable n i ->
  normalize_index n (Z.of_nat (position n i)) = normalize_index n i.
Proof.
  intros H. destruct (normalize_index_position n i H) as (-> & Hp & _).
  rewrite normalize_index_valid by (unfold valid_index; lia).
  now rewrite Nat2Z.id.
Qed.

Lemma position_valid (n : nat) (i : Z) :
  subscriptable n i -> valid_index n (Z.of_nat (position n i)).
Proof.
  intros H. destruct (normalize_index_position n i H) as (_ & Hp & _).
  unfold valid_index. lia.
Qed.

Lemma getitem_twin {A} (d : A) (a : list A) (i : Z) :
  subscriptable (List.length a) i ->
  getitem d a (Z.of_nat (position (List.length a) i)) = getitem d a i.
Proof. intros H. unfold getitem. now rewrite normalize_index_twin. Qed.

Lemma getitem_twin_len {A} (d : A) (a : list A) (n : nat) (i : Z) :
  List.length a = n -> subscriptable n i ->
  getitem d a (Z.of_nat (position n i)) = getitem d a i.
Proof. intros <-. apply getitem_twin. Qed.

Lemma incr_item_twin (a : list Z) (i : Z) :
  subscriptable (List.length a) i ->
  incr_item a (Z.of_nat (position (List.length a) i)) = incr_item a i.
Proof. intros H. unfold incr_item. now rewrite normalize_index_twin. Qed.

Lemma degree_loop_twin (n : nat) (edges : list Edge) :
  Forall (endpoints_ok n) edges ->
  forall d0, List.length d0 = n ->
  degree_loop (map (normalize_edge n) edges) d0 = degree_loop edges d0.
Proof.
  induction 1 as [|e edges [Hs Ht] _ IH]; intros d0 Hlen; [reflexivity|].
  cbn [map degree_loop normalize_edge e_src e_tgt].
  rewrite <- Hlen at 1. rewrite incr_item_twin by (rewrite Hlen; exact Hs).
  rewrite <- Hlen in Hs.
  destruct (incr_item_subscriptable d0 _ Hs) as (d1 & -> & L1). cbn [res_bind].
  assert (L1' : List.length d1 = n) by congruence.
  rewrite <- L1' at 1. rewrite incr_item_twin by (rewrite L1'; exact Ht).
  rewrite <- L1' in Ht.
  destruct (incr_item_subscriptable d1 _ Ht) as (d2 & -> & L2). cbn [res_bind].
  apply IH. congruence.
Qed.

Section Twins.
Variables (xs ys : list float) (n : nat).
Hypothesis Hxs : List.length xs = n.
Hypothesis Hys : List.length ys = n.

Lemma segment_twin (e : Edge) :
  endpoints_ok n e -> segment xs ys (normalize_edge n e) = segment xs ys e.
Proof.
  intros [Hs Ht]. unfold segment, normalize_edge. cbn [e_src e_tgt].
  rewrite !(getitem_twin_len nan xs n) by assumption.
  rewrite !(getitem_twin_len nan ys n) by assumption.
  reflexivity.
Qed.

Lemma edge_len_twin (e : Edge) :
  endpoints_ok n e -> edge_len xs ys (normalize_edge n e) = edge_len xs ys e.
Proof.
  intros [Hs Ht]. unfold edge_len, normalize_edge. cbn [e_src e_tgt].
  rewrite !(getitem_twin_len nan xs n) by assumption.
  rewrite !(getitem_twin_len nan ys n) by assumption.
  reflexivity.
Qed.

Lemma edge_in_view_twin (cx cy radius : float) (e : Edge) :
  endpoints_ok n e ->
  edge_in_view xs ys cx cy radius (normalize_edge n e) = edge_in_view xs ys cx cy radius e.
Proof.
  intros [Hs Ht]. unfold edge_in_view, normalize_edge. cbn [e_src e_tgt].
  rewrite !(getitem_twin_len nan xs n) by assumption.
  rewrite !(getitem_twin_len nan ys n) by assumption.
  reflexivity.
Qed.

Lemma mapM_twin {B} (f : Edge -> Res B) (edges : list Edge) :
  (forall e, endpoints_ok n e -> f (normalize_edge n e) = f e) ->
  Forall (endpoints_ok n) edges ->
  mapM f (map (normalize_edge n) edges) = mapM f edges.
Proof.
  intros Hf. induction 1 as [|e edges He _ IH]; [reflexivity|].
  cbn [map mapM]. now rewrite (Hf e He), IH.
Qed.

Lemma edges_in_view_twin (cx cy radius : float) (edges : list Edge) :
  Forall (endpoints_ok n) edges ->
  edges_in_view xs ys cx cy radius (map (normalize_edge n) edges) =
  match edges_in_view xs ys cx cy radius edges with
  | inl x => inl x
  | inr shown => inr (map (normalize_edge n) shown)
  end.
Proof.
  induction 1 as [|e edges He _ IH]; [reflexivity|].
  cbn [map edges_in_view]. rewrite (edge_in_view_twin cx cy radius e He), IH.
  destruct (edge_in_view xs ys cx cy radius e) as [x|b]; cbn [res_bind]; [reflexivity|].
  destruct (edges_in_view xs ys cx cy radius edges) as [x|shown]; cbn [res_bind];
    [reflexivity|].
  destruct b; reflexivity.
Qed.

End Twins.

Lemma render_twin (K : Kernels) (secret : HashSecret) (data : Dataset)
    (degrees : list Z) (m : Z) :
  Forall (endpoints_ok (List.length (ds_nodes data))) (ds_edges data) ->
  render K secret (normalize_data data) degrees m = render K secret data degrees m.
Proof.
  intros Hok. unfold render, normalize_data. cbn [ds_nodes ds_edges].
  set (n := List.length (ds_nodes data)) in *.
  set (xs := map node_x (ds_nodes data)). set (ys := map node_y (ds_nodes data)).
  assert (Lx : List.length xs = n) by apply length_map.
  assert (Ly : List.length ys = n) by apply length_map.
  rewrite (mapM_twin n (segment xs ys) _ (segment_twin xs ys n Lx Ly) Hok).
  rewrite length_map, map_map. cbn [normalize_edge e_ty].
  destruct (mapM (segment xs ys) (ds_edges data)) as [x|lines]; cbn [res_bind];
    [reflexivity|].
  destruct (set_lim _ _) as [x|xlim]; cbn [res_bind]; [reflexivity|].
  destruct (set_lim _ _) as [x|ylim]; cbn [res_bind]; [reflexivity|].
  rewrite (edges_in_view_twin xs ys n Lx Ly) by exact Hok.
  destruct (edges_in_view xs ys _ _ _ (ds_edges data)) as [x|shown] eqn:Hs;
    cbn [res_bind]; [reflexivity|].
  assert (Hshown : Forall (endpoints_ok n) shown).
  { apply edges_in_view_inr in Hs. subst shown. now apply Forall_filter_keep. }
  rewrite (mapM_twin n (segment xs ys) _ (segment_twin xs ys n Lx Ly) Hshown).
  rewrite map_map. cbn [normalize_edge e_ty]. reflexivity.
Qed.

Lemma report_twin (K : Kernels) (data : Dataset) (w : World) :
  Forall (endpoints_ok (List.length (ds_nodes data))) (ds_edges data) ->
  report K (normalize_data data) w = report K data w.
Proof.
  intros Hok. unfold report.
  change (ds_nodes (normalize_data data)) with (ds_nodes data).
  change (ds_edges (normalize_data data))
    with (map (normalize_edge (List.length (ds_nodes data))) (ds_edges data)).
  set (n := List.length (ds_nodes data)) in *.
  set (xs := map node_x (ds_nodes data)). set (ys := map node_y (ds_nodes data)).
  assert (Lx : List.length xs = n) by apply length_map.
  assert (Ly : List.length ys = n) by apply length_map.
  unfold compute_degrees, edge_lens.
  rewrite (degree_loop_twin n _ Hok) by apply repeat_length.
  rewrite (mapM_twin n (edge_len xs ys) _ (edge_len_twin xs ys n Lx Ly) Hok).
  rewrite length_map. reflexivity.
Qed.

(** X12. A negative endpoint is indistinguishable from the position it
    addresses: when every endpoint lies in [-N, N), replacing each
    endpoint [i < 0] by [i + N] yields a dataset with all endpoints in
    [0, N) on which the run prints the same report, ends the same way and
    writes the same image. *)
Theorem negative_indices_are_aliases (K : Kernels) (secret : HashSecret) (data : Dataset) :
  let n := List.length (ds_nodes data) in
  Forall (endpoints_ok n) (ds_edges data) ->
  execute K secret (normalize_data data) = execute K secret data /\
  Forall (fun e => valid_index n (e_src e) /\ valid_index n (e_tgt e))
         (ds_edges (normalize_data data)) /\
  (forall e, In e (ds_edges data) -> 0 <= e_src e -> 0 <= e_tgt e ->
             normalize_edge n e = e).
Proof.
  intros n Hok. split; [|split].
  - unfold execute, script.
    cbv beta iota zeta delta [bind lift].
    rewrite (report_twin K data _ Hok).
    destruct (report K data _) as [w [x|dm]]; [reflexivity|].
    now rewrite (render_twin K secret data _ _ Hok).
  - unfold normalize_data. cbn [ds_edges ds_nodes]. fold n.
    apply Forall_map. eapply Forall_impl; [|exact Hok].
    intros e [Hs Ht]. cbn [normalize_edge e_src e_tgt].
    split; now apply position_valid.
  - intros e Hin Hs Ht. rewrite Forall_forall in Hok. destruct (Hok e Hin) as [Hs' Ht'].
    unfold normalize_edge, position. destruct e as [s t ty]. cbn [e_src e_tgt e_ty] in *.
    replace (s <? 0) with false by (symmetry; apply Z.ltb_ge; lia).
    replace (t <? 0) with false by (symmetry; apply Z.ltb_ge; lia).
    rewrite !Z2Nat.id by lia. reflexivity.
Qed.

Lemma negative_indices_sample :
  Forall (endpoints_ok 2) (ds_edges negative_index_data) /\
  execute ref_kernels secret_seed0 (normalize_data negative_index_data)
  = execute ref_kernels secret_seed0 negative_index_data /\
  ds_edges (normalize_data negative_index_data) = [mk_edge 0 1 0].
Proof.
  assert (H : Forall (endpoints_ok 2) (ds_edges negative_index_data)).
  { repeat constructor; unfold subscriptable; cbn; lia. }
  split; [exact H|]. split; [|reflexivity].
  apply (negative_indices_are_aliases ref_kernels secret_seed0 negative_index_data H).
Defined.

(** X13. Whatever the dataset, the console holds a prefix of one fixed
    sequence of thirteen lines, each kind at most once and in the same
    order, starting with the node and edge counts; a run can only stop
    after 2, 7, 10, 11, 12 or all 13 of them. *)
Theorem console_is_prefix_of_report (K : Kernels) (secret : HashSecret) (data : Dataset) :
  let out := console (execute K secret data) in
  map line_kind out = seq 0 (List.length out) /\
  In (List.length out) [2; 7; 10; 11; 12; 13]%nat /\
  firstn 2 out = [LNodes (List.length (ds_nodes data)); LEdges (List.length (ds_edges data))].
Proof.
  cbv zeta. unfold console.
  destruct (run_classification K secret data)
    as [(H0 & ->) | [(Hp & Hnot & i & e & Hbad & _ & _ & ->) | [(H1 & Hok & d & m & ->)
       | [(H2 & Hok & He & d & m & ->) | [(H2 & Hok & He & Hlim & d & m & l & ->)
       | (H2 & Hok & He & Hlim & d & m & l & img & _ & _ & _ &
          [(_ & ->) | [(_ & _ & ->) | (_ & _ & ->)]])]]]]];
    cbn [fst snd world stdout png].
  - rewrite H0. cbn. tauto.
  - cbn. tauto.
  - cbn. tauto.
  - cbn. tauto.
  - cbn. tauto.
  - cbn. tauto.
  - cbn. tauto.
  - cbn. tauto.
Qed.
